(** * Event dispatch and game state machine of the MVC game skeleton

    A shallow embedding of [EventManager.py] and [Model.py]:
    the listener registry with its synchronous, recursive [post], the
    stack-based [StateMachine], the [Player] entity and the [GameEngine]
    whose [notify] turns events into state transitions.

    Python objects are mutable and their methods may raise; methods are
    therefore embedded in a state-and-exception monad.  An exception carries
    the state reached when it was raised, because mutations performed before
    a [raise] persist.  Positions, speeds and the numeric constants they are
    combined with are Python [float]s, that is binary64 values: they are
    embedded as primitive floats, whose operations round as Python's do. *)

From Stdlib Require Import Floats ZArith QArith Qreals Reals Lia Lqa Lra.
From stdpp Require Import base list strings gmap.

(** ** Exceptions and the method monad *)

Inductive exn :=
| IndexError | AttributeError | KeyError | ZeroDivisionError
| OverflowError | ValueError.

Definition exn_eqb (a b : exn) : bool :=
  match a, b with
  | IndexError, IndexError | AttributeError, AttributeError
  | KeyError, KeyError | ZeroDivisionError, ZeroDivisionError
  | OverflowError, OverflowError | ValueError, ValueError => true
  | _, _ => false
  end.

Inductive outcome (S A : Type) : Type :=
| Ok (a : A) (s : S)
| Raise (e : exn) (s : S)
| OutOfFuel.
Arguments Ok {S A} a s.
Arguments Raise {S A} e s.
Arguments OutOfFuel {S A}.

Definition M (S A : Type) : Type := S -> outcome S A.

Definition ret {S A} (a : A) : M S A := fun s => Ok a s.

Definition bind {S A B} (m : M S A) (k : A -> M S B) : M S B :=
  fun s =>
    match m s with
    | Ok a s' => k a s'
    | Raise e s' => Raise e s'
    | OutOfFuel => OutOfFuel
    end.

Notation "x <- m ;; k" := (bind m (fun x => k))
  (at level 100, m at next level, right associativity).
Notation "m ;;; k" := (bind m (fun _ => k))
  (at level 100, right associativity).

Definition raise {S A} (e : exn) : M S A := fun s => Raise e s.
Definition get {S} : M S S := fun s => Ok s s.
Definition put {S} (s : S) : M S unit := fun _ => Ok tt s.
Definition modify {S} (f : S -> S) : M S unit := fun s => Ok tt (f s).

(** [try: m except e: h] *)
Definition try_except {S A} (m : M S A) (e : exn) (h : M S A) : M S A :=
  fun s =>
    match m s with
    | Raise e' s' => if exn_eqb e' e then h s' else Raise e' s'
    | r => r
    end.

(** Run a method of a component object held in a field of the state. *)
Definition zoom {S T A} (proj : S -> T) (upd : T -> S -> S) (m : M T A) : M S A :=
  fun s =>
    match m (proj s) with
    | Ok a t => Ok a (upd t s)
    | Raise e t => Raise e (upd t s)
    | OutOfFuel => OutOfFuel
    end.

(** Reading an attribute that has not been assigned yet. *)
Definition attr {S A} (f : S -> option A) : M S A :=
  fun s => match f s with Some a => Ok a s | None => Raise AttributeError s end.

(** ** Python containers *)

(** [l[i]]: a negative index counts from the end, anything outside
    [-len(l) .. len(l)-1] raises [IndexError]. *)
Definition norm_index (len : nat) (i : Z) : option nat :=
  let n := Z.of_nat len in
  let j := if (i <? 0)%Z then (i + n)%Z else i in
  if ((j <? 0) || (n <=? j))%Z then None else Some (Z.to_nat j).

Definition getitem {S A} (l : list A) (i : Z) : M S A :=
  match norm_index (length l) i with
  | Some j => match l !! j with Some a => ret a | None => raise IndexError end
  | None => raise IndexError
  end.

(** [l[i] = x] *)
Definition setitem {S A} (l : list A) (i : Z) (x : A) : M S (list A) :=
  match norm_index (length l) i with
  | Some j => ret (<[j:=x]> l)
  | None => raise IndexError
  end.

(** The list [l] once the object at [l[i]] has been mutated into [x]. *)
Definition list_store {A} (l : list A) (i : Z) (x : A) : list A :=
  match norm_index (length l) i with
  | Some j => <[j:=x]> l
  | None => l
  end.

(** [l.pop()]: removes and returns the last item. *)
Definition list_pop {S A} (l : list A) : M S (A * list A) :=
  match last l with
  | Some a => ret (a, removelast l)
  | None => raise IndexError
  end.

(** [d[k]] on a dict *)
Definition dict_getitem {S A} (d : gmap string A) (k : string) : M S A :=
  match d !! k with
  | Some a => ret a
  | None => raise KeyError
  end.

(** ** Floats *)

(** [a / b]: a zero divisor of either sign raises; any other quotient is the
    rounded one, infinite when it overflows. *)
Definition truediv {S} (a b : float) : M S float :=
  if (b =? 0)%float then raise ZeroDivisionError else ret (a / b)%float.

(** [x ** 2] on a float.  Python hands it to C's [pow]; the result is taken
    as the correctly rounded square, which is what [x * x] gives.  The
    square of a finite [x] that is too large for a float raises
    [OverflowError]; an infinite [x] gives infinity and a NaN gives NaN,
    without an error. *)
Definition pow2 {S} (x : float) : M S float :=
  let y := (x * x)%float in
  if is_infinity y && negb (is_infinity x) then raise OverflowError else ret y.

(** [math.sqrt(x)]: the rounded square root; a negative [x], minus infinity
    included, raises [ValueError], and NaN gives NaN. *)
Definition math_sqrt {S} (x : float) : M S float :=
  if (x <? 0)%float then raise ValueError else ret (PrimFloat.sqrt x).

(** [max(a, b)] keeps [a] unless [b > a]; [min(a, b)] keeps [a] unless [b < a].
    A comparison with NaN is false, so a NaN second argument is dropped. *)
Definition py_max (a b : float) : float := if (a <? b)%float then b else a.
Definition py_min (a b : float) : float := if (b <? a)%float then b else a.

(** ** State tokens and events *)

(** What the state stack holds and what [pop]/[peek] return: a state token
    (an integer constant of [Const]) or Python's [None]. *)
Inductive value := VNone | VInt (n : Z).

#[global] Instance value_eq_dec : EqDecision value.
Proof. solve_decision. Defined.

(** [a == b] *)
Definition value_eqb (a b : value) : bool :=
  match a, b with
  | VNone, VNone => true
  | VInt x, VInt y => (x =? y)%Z
  | _, _ => false
  end.

(** [a is None] *)
Definition is_None (a : value) : bool :=
  match a with VNone => true | VInt _ => false end.

Inductive Event :=
| BaseEvent
| EventInitialize
| EventQuit
| EventPause
| EventContinue
| EventStateChange (state : value)
| EventEveryTick
| EventTimesUp
| EventChangePosition
| EventPlayerMove (player_id : Z) (direction : string).

#[global] Instance Event_eq_dec : EqDecision Event.
Proof. solve_decision. Defined.

(** ** Configuration *)

(** [pg.Vector2]: two floats. *)
Record Vector2 := mkVector2 { vx : float; vy : float }.

Definition vec_add (a b : Vector2) : Vector2 :=
  {| vx := vx a + vx b; vy := vy a + vy b |}.
Definition vec_scale (k : float) (v : Vector2) : Vector2 :=
  {| vx := k * vx v; vy := k * vy v |}.

(** The module [Const] is not among the sources; its constants are taken as
    a parameter of every definition that reads them.  The frame rate, the
    arena size, the radius and the speeds are taken as floats: an [int]
    constant of the same value (below [2^53]) behaves the same in every
    operation the sources apply to it. *)
Record Const := mkConst {
  FPS : float;
  GAME_LENGTH : Z;
  ARENA_SIZE : float * float;
  PLAYER_RADIUS : float;
  SPEED_ATTACK : float;
  SPEED_DEFENSE : float;
  PLAYER_INIT_POSITION : list Vector2;
  DIRECTION_TO_VEC2 : gmap string Vector2;
  STATE_POP : Z;
  STATE_MENU : Z;
  STATE_PLAY : Z;
  STATE_STOP : Z;
  STATE_ENDGAME : Z
}.

(** ** StateMachine *)

Record StateMachine := mkStateMachine { statestack : list value }.

Module StateMachine.

Definition init : StateMachine := {| statestack := [] |}.

Definition peek : M StateMachine value :=
  try_except
    (self <- get ;; getitem (statestack self) (-1))
    IndexError
    (ret VNone).

Definition pop : M StateMachine value :=
  try_except
    (self <- get ;;
     r <- list_pop (statestack self) ;;
     put {| statestack := snd r |} ;;;
     ret (fst r))
    IndexError
    (ret VNone).

Definition push (state : value) : M StateMachine value :=
  self <- get ;;
  put {| statestack := statestack self ++ [state] |} ;;;
  ret state.

Definition clear : M StateMachine unit :=
  put {| statestack := [] |}.

End StateMachine.

(** ** Player *)

Record Player := mkPlayer {
  player_id : Z;
  position : Vector2;
  speed : float
}.

Definition set_position (v : Vector2) (p : Player) : Player :=
  {| player_id := player_id p; position := v; speed := speed p |}.

Module Player.

(** [Player(player_id)]; the position is a copy of the table entry, so the
    player owns it. *)
Definition init {S} (c : Const) (pid : Z) : M S Player :=
  p <- getitem (PLAYER_INIT_POSITION c) pid ;;
  ret {| player_id := pid;
         position := p;
         speed := if (pid =? 1)%Z then SPEED_ATTACK c else SPEED_DEFENSE c |}.

Definition move_direction (c : Const) (direction : string) : M Player unit :=
  self <- get ;;
  k <- truediv (speed self) (FPS c) ;;
  d <- dict_getitem (DIRECTION_TO_VEC2 c) direction ;;
  modify (set_position (vec_add (position self) (vec_scale k d))) ;;;
  modify (fun self =>
    set_position {| vx := py_max 0 (py_min (fst (ARENA_SIZE c)) (vx (position self)));
                    vy := vy (position self) |} self) ;;;
  modify (fun self =>
    set_position {| vx := vx (position self);
                    vy := py_max 0 (py_min (snd (ARENA_SIZE c)) (vy (position self))) |} self).

End Player.

(** The positions reached by a sequence of [move_direction] calls, one entry
    per call that returned; the sequence stops at the first call that raises. *)
Fixpoint move_trace (c : Const) (dirs : list string) (p : Player) : list Player :=
  match dirs with
  | [] => []
  | d :: rest =>
      match Player.move_direction c d p with
      | Ok _ p' => p' :: move_trace c rest p'
      | _ => []
      end
  end.

(** [a <= b] on floats, as a proposition; false when either is NaN. *)
Definition fle (a b : float) : Prop := (a <=? b)%float = true.

Definition in_arena (c : Const) (p : Player) : Prop :=
  (fle 0 (vx (position p)) /\ fle (vx (position p)) (fst (ARENA_SIZE c))) /\
  (fle 0 (vy (position p)) /\ fle (vy (position p)) (snd (ARENA_SIZE c))).

(** ** GameEngine and EventManager *)

(** The attributes [roll], [players], [timer] and [running] are assigned by
    [initialize], [change_position] and [run], not by [__init__]: until then
    they are absent.  The clock handle is an external object and is left out. *)
Record GameEngine := mkGameEngine {
  state_machine : StateMachine;
  roll : option (list Z);
  players : option (list Player);
  timer : option Z;
  running : option bool
}.

Definition set_state_machine (x : StateMachine) (g : GameEngine) : GameEngine :=
  {| state_machine := x; roll := roll g; players := players g;
     timer := timer g; running := running g |}.
Definition set_roll (x : list Z) (g : GameEngine) : GameEngine :=
  {| state_machine := state_machine g; roll := Some x; players := players g;
     timer := timer g; running := running g |}.
Definition set_players (x : list Player) (g : GameEngine) : GameEngine :=
  {| state_machine := state_machine g; roll := roll g; players := Some x;
     timer := timer g; running := running g |}.
Definition set_timer (x : Z) (g : GameEngine) : GameEngine :=
  {| state_machine := state_machine g; roll := roll g; players := players g;
     timer := Some x; running := running g |}.
Definition set_running (x : bool) (g : GameEngine) : GameEngine :=
  {| state_machine := state_machine g; roll := roll g; players := players g;
     timer := timer g; running := Some x |}.

(** The objects a listener list can hold: the game engine, or a passive
    listener (a view, a test probe) whose [notify] changes nothing here. *)
Inductive Listener := TheModel | Probe (n : nat).

#[global] Instance Listener_eq_dec : EqDecision Listener.
Proof. solve_decision. Defined.

(** The event manager and the engine refer to each other ([ev_manager] in
    the engine, the engine in [listeners]); they live in one store.  [posted]
    and [notified] are observation logs: every [post] call and every [notify]
    call made by [post], in the order they happen. *)
Record World := mkWorld {
  listeners : list Listener;
  model : GameEngine;
  posted : list Event;
  notified : list (Listener * Event)
}.

Definition set_listeners (x : list Listener) (w : World) : World :=
  {| listeners := x; model := model w; posted := posted w; notified := notified w |}.
Definition set_model (x : GameEngine) (w : World) : World :=
  {| listeners := listeners w; model := x; posted := posted w; notified := notified w |}.
Definition log_post (e : Event) (w : World) : World :=
  {| listeners := listeners w; model := model w; posted := posted w ++ [e];
     notified := notified w |}.
Definition log_notify (l : Listener) (e : Event) (w : World) : World :=
  {| listeners := listeners w; model := model w; posted := posted w;
     notified := notified w ++ [(l, e)] |}.

(** [self.state_machine.<method>] and [self.<method>] seen from the store *)
Definition on_sm {A} (m : M StateMachine A) : M GameEngine A :=
  zoom state_machine set_state_machine m.
Definition on_model {A} (m : M GameEngine A) : M World A :=
  zoom model set_model m.

Module GameEngine.

(** [distance]: the left square is taken first, so when both overflow the
    error is the left one's; the sum of the squares overflows to infinity
    without an error. *)
Definition distance {S} (player1 player2 : Player) : M S float :=
  a <- pow2 (vx (position player1) - vx (position player2)) ;;
  b <- pow2 (vy (position player1) - vy (position player2)) ;;
  math_sqrt (a + b).

Definition initialize (c : Const) : M GameEngine unit :=
  on_sm (StateMachine.push (VInt (STATE_MENU c))) ;;;
  modify (set_roll [0%Z; 1%Z]) ;;;
  r <- attr roll ;;
  a <- getitem r 0 ;;
  p0 <- Player.init c a ;;
  r <- attr roll ;;
  b <- getitem r 1 ;;
  p1 <- Player.init c b ;;
  modify (set_players [p0; p1]).

Definition change_position (c : Const) : M GameEngine unit :=
  r <- attr roll ;;
  a <- getitem r 1 ;;
  b <- getitem r 0 ;;
  r0 <- setitem r 0 a ;;
  modify (set_roll r0) ;;;
  r1 <- setitem r0 1 b ;;
  modify (set_roll r1) ;;;
  r <- attr roll ;;
  a <- getitem r 0 ;;
  p0 <- Player.init c a ;;
  r <- attr roll ;;
  b <- getitem r 1 ;;
  p1 <- Player.init c b ;;
  modify (set_players [p0; p1]) ;;;
  modify (set_timer (GAME_LENGTH c)).

Definition update_menu : M GameEngine unit := ret tt.
Definition update_objects : M GameEngine unit := ret tt.
Definition update_endgame : M GameEngine unit := ret tt.

(** [self.players[player_id].move_direction(direction)]: the player object
    sits in the list and is mutated in place, so what the method does to it
    is seen through [self.players]. *)
Definition move_player (c : Const) (pid : Z) (direction : string) : M GameEngine unit :=
  ps <- attr players ;;
  p <- getitem ps pid ;;
  zoom (fun _ => p) (fun p' => set_players (list_store ps pid p'))
    (Player.move_direction c direction).

Definition check_collision (c : Const) (post : Event -> M World unit) : M World unit :=
  ps <- on_model (attr players) ;;
  p0 <- getitem ps 0 ;;
  p1 <- getitem ps 1 ;;
  d <- distance p0 p1 ;;
  if (d <? 2 * PLAYER_RADIUS c)%float
  then post EventQuit
  else ret tt.

(** [notify]; [post] stands for [self.ev_manager.post]. *)
Definition notify (c : Const) (post : Event -> M World unit) (event : Event) : M World unit :=
  match event with
  | EventInitialize => on_model (initialize c)
  | EventEveryTick =>
      cur_state <- on_model (on_sm StateMachine.peek) ;;
      if value_eqb cur_state (VInt (STATE_MENU c)) then on_model update_menu
      else if value_eqb cur_state (VInt (STATE_PLAY c)) then
        on_model update_objects ;;;
        t <- on_model (attr timer) ;;
        on_model (modify (set_timer (t - 1))) ;;;
        t' <- on_model (attr timer) ;;
        if (t' =? 0)%Z then post EventChangePosition else ret tt
      else if value_eqb cur_state (VInt (STATE_PLAY c)) then ret tt
      else if value_eqb cur_state (VInt (STATE_ENDGAME c)) then on_model update_endgame
      else ret tt
  | EventStateChange state =>
      if value_eqb state (VInt (STATE_POP c)) then
        r <- on_model (on_sm StateMachine.pop) ;;
        if is_None r then post EventQuit else ret tt
      else
        on_model (on_sm (StateMachine.push state)) ;;; ret tt
  | EventQuit => on_model (modify (set_running false))
  | EventPlayerMove pid direction =>
      on_model (move_player c pid direction) ;;;
      check_collision c post
  | EventTimesUp =>
      on_model (on_sm (StateMachine.push (VInt (STATE_ENDGAME c)))) ;;; ret tt
  | EventPause =>
      on_model (on_sm (StateMachine.push (VInt (STATE_STOP c)))) ;;; ret tt
  | EventContinue =>
      on_model (on_sm StateMachine.pop) ;;; ret tt
  | EventChangePosition => on_model (change_position c)
  | BaseEvent => ret tt
  end.

End GameEngine.

Module EventManager.

Definition register_listener (listener : Listener) : M World unit :=
  modify (fun w => set_listeners (listeners w ++ [listener]) w).

Definition unregister_listener (listener : Listener) : M World unit :=
  ret tt.

(** [listener.notify(event)] *)
Definition notify (c : Const) (post : Event -> M World unit)
    (listener : Listener) (event : Event) : M World unit :=
  match listener with
  | TheModel => GameEngine.notify c post event
  | Probe _ => ret tt
  end.

(** [for listener in ls: listener.notify(event)] *)
Fixpoint deliver (c : Const) (post : Event -> M World unit)
    (ls : list Listener) (event : Event) : M World unit :=
  match ls with
  | [] => ret tt
  | listener :: rest =>
      modify (log_notify listener event) ;;;
      notify c post listener event ;;;
      deliver c post rest event
  end.

(** [post] and [notify] call each other through the manager; [fuel] bounds
    the nesting of [post] calls.  No [notify] modelled here changes
    [listeners] ([post_listeners]), so the loop runs over the list as it is
    when [post] is entered. *)
Fixpoint post (fuel : nat) (c : Const) (event : Event) : M World unit :=
  match fuel with
  | O => fun _ => OutOfFuel
  | S fuel' =>
      modify (log_post event) ;;;
      self <- get ;;
      deliver c (post fuel' c) (listeners self) event
  end.

End EventManager.

(** [EventManager()] followed by [GameEngine(ev_manager)] *)
Definition fresh_engine : GameEngine :=
  {| state_machine := StateMachine.init; roll := None; players := None;
     timer := None; running := None |}.

Definition fresh_world : World :=
  {| listeners := [TheModel]; model := fresh_engine; posted := []; notified := [] |}.

(** [n] successive [post(EventEveryTick())] calls, as the loop of [run] makes. *)
Fixpoint ticks (fuel : nat) (c : Const) (n : nat) : M World unit :=
  match n with
  | O => ret tt
  | S n' => EventManager.post fuel c EventEveryTick ;;; ticks fuel c n'
  end.

(** A configuration to run the model on. *)
Definition sample_const : Const :=
  {| FPS := 60;
     GAME_LENGTH := 1800;
     ARENA_SIZE := (800, 800)%float;
     PLAYER_RADIUS := 75;
     SPEED_ATTACK := 100;
     SPEED_DEFENSE := 70;
     PLAYER_INIT_POSITION := [ {| vx := 200; vy := 400 |}; {| vx := 600; vy := 400 |} ];
     DIRECTION_TO_VEC2 :=
       {[ "up" := {| vx := 0; vy := -1 |};
          "left" := {| vx := -1; vy := 0 |};
          "down" := {| vx := 0; vy := 1 |};
          "right" := {| vx := 1; vy := 0 |} ]};
     STATE_POP := 0;
     STATE_MENU := 1;
     STATE_PLAY := 2;
     STATE_STOP := 3;
     STATE_ENDGAME := 4 |}.

(** ** Specification vocabulary *)

(** The top of a stack kept as a list whose last item is the top; [None] when empty. *)
Definition top (st : list value) : value := default VNone (last st).

(** [n] successive [pop()] calls *)
Fixpoint pops (n : nat) : M StateMachine unit :=
  match n with
  | O => ret tt
  | S k => StateMachine.pop ;;; pops k
  end.


(** A method that never exhausts the fuel: it returns or raises. *)
Definition returns {S A} (m : M S A) : Prop := forall s, m s <> OutOfFuel.

(** [nested ev e']: handling [ev], the engine may post [e']. *)
Definition nested (ev e' : Event) : Prop :=
  match ev, e' with
  | EventEveryTick, EventChangePosition => True
  | EventStateChange _, EventQuit => True
  | EventPlayerMove _ _, EventQuit => True
  | _, _ => False
  end.

(** The three ways [GameEngine.notify] ends: it returns or raises having
    touched only the engine, or it ends in one nested [post]. *)
Inductive shape (p : Event -> M World unit) (ev : Event) (w : World)
  : outcome World unit -> Prop :=
| shape_ok g : shape p ev w (Ok tt (set_model g w))
| shape_raise e g : shape p ev w (Raise e (set_model g w))
| shape_post g e' : nested ev e' -> shape p ev w (p e' (set_model g w)).

Definition is_probe (l : Listener) : bool :=
  match l with Probe _ => true | TheModel => false end.

(** How many entries of a listener list are the engine. *)
Definition model_count (ls : list Listener) : nat :=
  length (List.filter (fun l => negb (is_probe l)) ls).

(** The [notify] calls of one delivery of [ev] to [ls] in which nothing raises
    and nothing is posted. *)
Definition calls (ls : list Listener) (ev : Event) : list (Listener * Event) :=
  map (fun l => (l, ev)) ls.

Definition add_notified (cs : list (Listener * Event)) (w : World) : World :=
  {| listeners := listeners w; model := model w; posted := posted w;
     notified := notified w ++ cs |}.

(** An event whose handling posts nothing. *)
Definition leaf (ev : Event) : Prop := forall e', ~ nested ev e'.

(** [P] holds of the store a call ends in, however it ends. *)
Definition after {A} (P : World -> Prop) (r : outcome World A) : Prop :=
  match r with Ok _ w | Raise _ w => P w | OutOfFuel => True end.


(** [register_listener] called on each item of [ls] in turn. *)
Fixpoint register_all (ls : list Listener) : M World unit :=
  match ls with
  | [] => ret tt
  | l :: rest => EventManager.register_listener l ;;; register_all rest
  end.

(** The entries of a call log that are [notify(ev)] calls. *)
Definition calls_with (ev : Event) (cs : list (Listener * Event)) : list (Listener * Event) :=
  List.filter (fun x => bool_decide (snd x = ev)) cs.

(** The store a call ends in, whether it returns or raises. *)
Definition run_from {A} (w : World) (m : M World A) : World :=
  match m w with Ok _ w' | Raise _ w' => w' | OutOfFuel => w end.

(** The store once [EventInitialize] has been posted: stack [[MENU]], both
    players in place. *)
Definition started_world : World :=
  run_from fresh_world (EventManager.post 2 sample_const EventInitialize).

(** [g'] differs from [g] at most in [running]. *)
Definition quit_only (g g' : GameEngine) : Prop :=
  state_machine g' = state_machine g /\ roll g' = roll g /\
  players g' = players g /\ timer g' = timer g.

(** [max(0, min(hi, x))] *)
Definition clamp (hi x : float) : float := py_max 0 (py_min hi x).

(** The player once moved along the vector [v] of its direction. *)
Definition moved (c : Const) (v : Vector2) (p : Player) : Player :=
  set_position
    {| vx := clamp (fst (ARENA_SIZE c)) (vx (position p) + speed p / FPS c * vx v);
       vy := clamp (snd (ARENA_SIZE c)) (vy (position p) + speed p / FPS c * vy v) |}
    p.

(** A round under way, as [run] sets it up: [Initialize] posted, the timer
    set to the game length, then the state PLAY pushed. *)
Definition playing_world : World :=
  run_from
    (set_model (set_timer (GAME_LENGTH sample_const) (model started_world)) started_world)
    (EventManager.post 2 sample_const (EventStateChange (VInt (STATE_PLAY sample_const)))).

(** The engine and a probe registered after it, [Initialize] posted. *)
Definition observed_world : World :=
  run_from fresh_world
    (EventManager.register_listener (Probe 0) ;;;
     EventManager.post 2 sample_const EventInitialize).

(** Between [w] and [w'], the [notify(ev)] calls made are one for each of the
    first [k] entries of [ls], in the order of [ls]. *)
Definition delivered_upto (ev : Event) (ls : list Listener) (k : nat)
    (w w' : World) : Prop :=
  exists cs, notified w' = notified w ++ cs /\
             calls_with ev cs = calls (take k ls) ev.

(** What a delivery of [ev] to [ls] has logged when it ends: every entry was
    notified if it returned; if it raised, the entries up to the one whose
    [notify] raised. *)
Definition delivery_trace (ev : Event) (ls : list Listener) (w : World)
    (r : outcome World unit) : Prop :=
  match r with
  | Ok _ w' => delivered_upto ev ls (length ls) w w'
  | Raise _ w' => exists k, (k < length ls)%nat /\ delivered_upto ev ls (S k) w w'
  | OutOfFuel => True
  end.

(** ** The main loop *)

(** [self.clock.tick(Const.FPS)]: the wait itself is external.  The attribute
    [clock] is assigned by [initialize], just before [roll] and with nothing
    that can raise in between, and by nothing else: it exists exactly when
    [roll] does, which is how its absence is told. *)
Definition clock_tick : M GameEngine unit :=
  _ <- attr roll ;; ret tt.

(** [while self.running: post(EventEveryTick()); self.clock.tick(FPS)];
    [fuel] bounds the number of iterations. *)
Fixpoint run_loop (fuel : nat) (c : Const) : M World unit :=
  match fuel with
  | O => fun _ => OutOfFuel
  | S fuel' =>
      r <- on_model (attr running) ;;
      if r then
        EventManager.post 2 c EventEveryTick ;;;
        on_model clock_tick ;;;
        run_loop fuel' c
      else ret tt
  end.

(** [GameEngine.run]; two units of fuel are all [post] ever needs. *)
Definition run (fuel : nat) (c : Const) : M World unit :=
  on_model (modify (set_running true)) ;;;
  EventManager.post 2 c EventInitialize ;;;
  on_model (modify (set_timer (GAME_LENGTH c))) ;;;
  run_loop fuel c.

(** ** Steps of the engine *)

(** The values [notify] pushes on the state stack besides [MENU]. *)
Definition pushes (c : Const) (s : value) : Prop :=
  s = VInt (STATE_ENDGAME c) \/ s = VInt (STATE_STOP c) \/
  value_eqb s (VInt (STATE_POP c)) = false.

(** [self.timer -= 1] *)
Definition count_down : M GameEngine unit :=
  t <- attr timer ;; modify (set_timer (t - 1)).

(** The changes [notify] makes to the engine itself, one per event handled. *)
Inductive engine_step (c : Const) : M GameEngine unit -> Prop :=
| step_skip : engine_step c (ret tt)
| step_initialize : engine_step c (GameEngine.initialize c)
| step_count_down : engine_step c count_down
| step_push s : pushes c s ->
    engine_step c (on_sm (StateMachine.push s) ;;; ret tt)
| step_pop : engine_step c (on_sm StateMachine.pop ;;; ret tt)
| step_quit : engine_step c (modify (set_running false))
| step_move pid d : engine_step c (GameEngine.move_player c pid d)
| step_change : engine_step c (GameEngine.change_position c).

(** [triple P m Q E]: run from a state where [P] holds, [m] returns a value
    and a state related by [Q], or raises in a state where [E] holds. *)
Definition triple {S A} (P : S -> Prop) (m : M S A)
    (Q : A -> S -> Prop) (E : S -> Prop) : Prop :=
  forall s, P s ->
    match m s with
    | Ok a s' => Q a s'
    | Raise _ s' => E s'
    | OutOfFuel => True
    end.

(** [m] keeps [Inv]: from a state where [Inv] holds, [m] ends, returning or
    raising, in a state where [Inv] holds. *)
Definition keeps {S A} (Inv : S -> Prop) (m : M S A) : Prop :=
  triple Inv m (fun _ => Inv) Inv.

(** No item of the state stack is the POP sentinel. *)
Definition pop_free (c : Const) (g : GameEngine) : Prop :=
  Forall (fun v => v <> VInt (STATE_POP c)) (statestack (state_machine g)).

(** The speed [Player.__init__] gives to a player id. *)
Definition role_speed (c : Const) (pid : Z) : float :=
  if (pid =? 1)%Z then SPEED_ATTACK c else SPEED_DEFENSE c.

(** The roles are either not assigned yet, or [roll] is a permutation of 0
    and 1 and [players[i]] is the player of id [roll[i]], with the speed of
    that id. *)
Definition roles_ok (c : Const) (g : GameEngine) : Prop :=
  (roll g = None /\ players g = None) \/
  exists a b p0 p1,
    roll g = Some [a; b] /\ [a; b] ≡ₚ [0; 1]%Z /\
    players g = Some [p0; p1] /\
    player_id p0 = a /\ player_id p1 = b /\
    speed p0 = role_speed c a /\ speed p1 = role_speed c b.

Definition vec_in_arena (c : Const) (v : Vector2) : Prop :=
  (fle 0 (vx v) /\ fle (vx v) (fst (ARENA_SIZE c))) /\
  (fle 0 (vy v) /\ fle (vy v) (snd (ARENA_SIZE c))).

(** Every player the engine holds is inside the arena. *)
Definition all_in_arena (c : Const) (g : GameEngine) : Prop :=
  forall ps, players g = Some ps -> Forall (in_arena c) ps.

(** [Player(pid)] when the position table holds [v] for [pid]. *)
Definition new_player (c : Const) (pid : Z) (v : Vector2) : Player :=
  {| player_id := pid; position := v; speed := role_speed c pid |}.

(** The engine [change_position] ends in. *)
Definition run_from_engine (c : Const) (g : GameEngine) : GameEngine :=
  match GameEngine.change_position c g with
  | Ok _ g' | Raise _ g' => g'
  | OutOfFuel => g
  end.

(** ** Events as text *)

From Stdlib Require DecimalString DecimalZ DecimalPos.

(** [str(n)] of an integer: its decimal digits, after a minus sign when it is
    negative. *)
Definition str_int (n : Z) : string :=
  DecimalString.NilZero.string_of_int (Z.to_int n).

(** [str] of what an [EventStateChange] carries. *)
Definition str_value (v : value) : string :=
  match v with
  | VNone => "None"
  | VInt n => str_int n
  end.

(** The class attribute [name] *)
Definition name (e : Event) : string :=
  match e with
  | BaseEvent => "Generic event"
  | EventInitialize => "Initialize event"
  | EventQuit => "Quit event"
  | EventPause => "Pause event"
  | EventContinue => "Continue event"
  | EventStateChange _ => "StateChange event"
  | EventEveryTick => "Tick event"
  | EventTimesUp => "Time's Up event"
  | EventChangePosition => "Change Position"
  | EventPlayerMove _ _ => "PlayerMove event"
  end.

(** [__str__]: [BaseEvent]'s returns the name; [EventStateChange] and
    [EventPlayerMove] have their own. *)
Definition str (e : Event) : string :=
  match e with
  | EventStateChange state =>
      name e +:+ " => StateTo: " +:+ str_value state
  | EventPlayerMove pid direction =>
      name e +:+ " => player_id " +:+ str_int pid +:+ " move " +:+ direction
  | _ => name e
  end.

(** A text without a space. *)
Fixpoint no_space (s : string) : Prop :=
  match s with
  | EmptyString => True
  | String a s' => a <> Ascii.Space /\ no_space s'
  end.

(** ** Sequences of stack operations *)

(** [push] called on each item of [l] in turn. *)
Fixpoint push_all (l : list value) : M StateMachine unit :=
  match l with
  | [] => ret tt
  | s :: rest => StateMachine.push s ;;; push_all rest
  end.

(** [n] successive [pop()] calls, with what they return, first call first. *)
Fixpoint pop_list (n : nat) : M StateMachine (list value) :=
  match n with
  | O => ret []
  | S k => v <- StateMachine.pop ;; vs <- pop_list k ;; ret (v :: vs)
  end.

(** ** Collision vocabulary *)

(** [x ** 2] raises [OverflowError]. *)
Definition square_overflows (x : float) : bool :=
  is_infinity (x * x) && negb (is_infinity x).

(** What [distance] returns when neither square overflows: the rounded
    square root of the rounded sum of the rounded squares of the rounded
    coordinate differences. *)
Definition computed_distance (player1 player2 : Player) : float :=
  let dx := (vx (position player1) - vx (position player2))%float in
  let dy := (vy (position player1) - vy (position player2))%float in
  PrimFloat.sqrt (dx * dx + dy * dy).

(** A square of [distance] overflows. *)
Definition distance_overflows (player1 player2 : Player) : bool :=
  square_overflows (vx (position player1) - vx (position player2)) ||
  square_overflows (vy (position player1) - vy (position player2)).








(** ** The order of floats

    Comparisons of floats are read through [rank]: NaN has none, and the
    other values are ordered as their ranks are, lexicographically. *)
Definition rank (x : spec_float) : option (Z * Z * Z) :=
  match x with
  | S754_nan => None
  | S754_infinity true => Some (-2, 0, 0)%Z
  | S754_finite true m e => Some (-1, - e, Z.neg m)%Z
  | S754_zero _ => Some (0, 0, 0)%Z
  | S754_finite false m e => Some (1, e, Z.pos m)%Z
  | S754_infinity false => Some (2, 0, 0)%Z
  end.

Definition frank (x : float) : option (Z * Z * Z) := rank (Prim2SF x).

Definition lex_compare (a b : Z * Z * Z) : comparison :=
  match (a.1.1 ?= b.1.1)%Z with
  | Eq => match (a.1.2 ?= b.1.2)%Z with
          | Eq => (a.2 ?= b.2)%Z
          | r => r
          end
  | r => r
  end.

Definition rank_compare (a b : option (Z * Z * Z)) : option comparison :=
  match a, b with
  | Some x, Some y => Some (lex_compare x y)
  | _, _ => None
  end.

(** A float that is not negative: a zero of either sign, a positive value,
    plus infinity, or NaN. *)
Definition not_negative (x : spec_float) : Prop :=
  match x with
  | S754_infinity s | S754_finite s _ _ => s = false
  | _ => True
  end.
(** * Properties *)

(** ** Python containers *)

Lemma norm_index_last (n : nat) :
  norm_index n (-1) = match n with O => None | S k => Some k end.
Proof.
  unfold norm_index. destruct n as [|k]; [reflexivity|].
  replace (-1 <? 0)%Z with true by reflexivity.
  replace (-1 + Z.of_nat (S k))%Z with (Z.of_nat k) by lia.
  destruct (Z.ltb_spec (Z.of_nat k) 0); [lia|].
  destruct (Z.leb_spec (Z.of_nat (S k)) (Z.of_nat k)); [lia|].
  cbn. now rewrite Nat2Z.id.
Qed.

Lemma last_lookup_pred {A} (l : list A) :
  l !! Nat.pred (length l) = last l.
Proof. now rewrite last_lookup. Qed.

Lemma getitem_last {S A} (l : list A) (s : S) :
  getitem l (-1) s =
  match last l with Some a => Ok a s | None => Raise IndexError s end.
Proof.
  unfold getitem. rewrite norm_index_last, <- last_lookup_pred.
  destruct l as [|x l]; [reflexivity|]. cbn [length Nat.pred].
  destruct ((x :: l) !! length l); reflexivity.
Qed.

Lemma last_None_nil {A} (l : list A) : last l = None -> l = [].
Proof. apply last_None. Qed.

(** ** Floats: order and signs *)

Lemma SFcompare_rank x y : SFcompare x y = rank_compare (rank x) (rank y).
Proof.
  destruct x as [[]|[]| |[] m1 e1], y as [[]|[]| |[] m2 e2]; try reflexivity;
    cbn; unfold lex_compare; cbn.
  rewrite Z.compare_opp, (Z.compare_antisym e1 e2).
  destruct (e1 ?= e2)%Z; reflexivity.
Qed.

Lemma compare_rank x y :
  SFcompare (Prim2SF x) (Prim2SF y) = rank_compare (frank x) (frank y).
Proof. apply SFcompare_rank. Qed.

Lemma ltb_rank x y :
  (x <? y)%float = match rank_compare (frank x) (frank y) with Some Lt => true | _ => false end.
Proof. rewrite FloatAxioms.ltb_spec. unfold SFltb. now rewrite compare_rank. Qed.

Lemma leb_rank x y :
  (x <=? y)%float =
  match rank_compare (frank x) (frank y) with Some (Lt | Eq) => true | _ => false end.
Proof. rewrite FloatAxioms.leb_spec. unfold SFleb. now rewrite compare_rank. Qed.

Lemma eqb_rank x y :
  (x =? y)%float = match rank_compare (frank x) (frank y) with Some Eq => true | _ => false end.
Proof. rewrite FloatAxioms.eqb_spec. unfold SFeqb. now rewrite compare_rank. Qed.

Lemma frank_zero : frank 0 = Some (0, 0, 0)%Z.
Proof. reflexivity. Qed.

Lemma lex_compare_Lt a b :
  lex_compare a b = Lt <->
  (a.1.1 < b.1.1 \/ a.1.1 = b.1.1 /\ (a.1.2 < b.1.2 \/ a.1.2 = b.1.2 /\ a.2 < b.2))%Z.
Proof.
  unfold lex_compare.
  destruct (Z.compare_spec a.1.1 b.1.1), (Z.compare_spec a.1.2 b.1.2),
    (Z.compare_spec a.2 b.2); split; (discriminate || lia || reflexivity).
Qed.

Lemma lex_compare_Eq a b :
  lex_compare a b = Eq <-> (a.1.1 = b.1.1 /\ a.1.2 = b.1.2 /\ a.2 = b.2)%Z.
Proof.
  unfold lex_compare.
  destruct (Z.compare_spec a.1.1 b.1.1), (Z.compare_spec a.1.2 b.1.2),
    (Z.compare_spec a.2 b.2); split; (discriminate || lia || reflexivity).
Qed.

Lemma lex_compare_Gt a b :
  lex_compare a b = Gt <->
  (b.1.1 < a.1.1 \/ a.1.1 = b.1.1 /\ (b.1.2 < a.1.2 \/ a.1.2 = b.1.2 /\ b.2 < a.2))%Z.
Proof.
  unfold lex_compare.
  destruct (Z.compare_spec a.1.1 b.1.1), (Z.compare_spec a.1.2 b.1.2),
    (Z.compare_spec a.2 b.2); split; (discriminate || lia || reflexivity).
Qed.

(** Decides a goal about comparisons of floats from the comparisons in the
    context: each float is replaced by its rank, a triple of integers or
    nothing, and the comparisons become linear arithmetic. *)
Ltac float_rank :=
  unfold fle in *;
  rewrite ?ltb_rank, ?leb_rank, ?eqb_rank, ?frank_zero in *;
  repeat match goal with
  | |- context [frank ?x] =>
      let r := fresh "r" in
      set (r := frank x) in *; clearbody r; destruct r as [[[? ?] ?]|]
  | H : context [frank ?x] |- _ =>
      let r := fresh "r" in
      set (r := frank x) in *; clearbody r; destruct r as [[[? ?] ?]|]
  end;
  cbn [rank_compare] in *.

Ltac lex_cases :=
  repeat match goal with
  | |- context [lex_compare ?a ?b] =>
      let E := fresh "E" in
      destruct (lex_compare a b) eqn:E;
      [apply lex_compare_Eq in E | apply lex_compare_Lt in E | apply lex_compare_Gt in E]
  | H : context [lex_compare ?a ?b] |- _ =>
      let E := fresh "E" in
      destruct (lex_compare a b) eqn:E;
      [apply lex_compare_Eq in E | apply lex_compare_Lt in E | apply lex_compare_Gt in E]
  end.

Ltac float_order :=
  float_rank; lex_cases; cbn in *;
  try discriminate; try reflexivity; try (exfalso; lia).

Lemma clamp_bounds hi x : fle 0 hi -> fle 0 (clamp hi x) /\ fle (clamp hi x) hi.
Proof.
  intros Hhi. unfold clamp, py_max, py_min.
  destruct (x <? hi)%float eqn:E1.
  - destruct (0 <? x)%float eqn:E2; split; float_order.
  - destruct (0 <? hi)%float eqn:E2; split; float_order.
Qed.

Lemma clamp_cases hi x :
  fle 0 hi ->
  ((x <? 0)%float = true -> clamp hi x = 0%float) /\
  ((hi <? x)%float = true -> (clamp hi x =? hi)%float = true) /\
  (fle 0 x -> fle x hi -> (clamp hi x =? x)%float = true) /\
  ((x =? x)%float = false -> (clamp hi x =? hi)%float = true).
Proof.
  intros Hhi. unfold clamp, py_max, py_min.
  destruct (x <? hi)%float eqn:E1.
  - destruct (0 <? x)%float eqn:E2; repeat split; intros; float_order.
  - destruct (0 <? hi)%float eqn:E2; repeat split; intros; float_order.
Qed.

Lemma binary_round_aux_sign prec emax s m e l :
  match binary_round_aux prec emax s m e l with
  | S754_zero s' | S754_infinity s' | S754_finite s' _ _ => s' = s
  | S754_nan => True
  end.
Proof.
  unfold binary_round_aux.
  destruct (shr_fexp _ _ _ _ _) as [mrs' e'].
  destruct (shr_fexp _ _ _ _ _) as [mrs'' e''].
  destruct (shr_m mrs''); [reflexivity| |exact I].
  destruct (Z.leb _ _); reflexivity.
Qed.

Lemma binary_round_aux_not_negative prec emax m e l :
  not_negative (binary_round_aux prec emax false m e l).
Proof.
  pose proof (binary_round_aux_sign prec emax false m e l) as H.
  destruct (binary_round_aux _ _ _ _ _ _); cbn; auto.
Qed.

Lemma SFmul_square_not_negative prec emax x : not_negative (SFmul prec emax x x).
Proof.
  destruct x as [s|s| |s m e]; cbn; try exact I; try (now destruct s).
  replace (xorb s s) with false by (now destruct s).
  apply binary_round_aux_not_negative.
Qed.

Lemma SFadd_not_negative prec emax x y :
  not_negative x -> not_negative y -> not_negative (SFadd prec emax x y).
Proof.
  destruct x as [sx|sx| |sx mx ex], y as [sy|sy| |sy my ey]; cbn;
    intros Hx Hy; subst; try exact I; try reflexivity;
    try (now destruct sx); try (now destruct sx, sy).
  unfold cond_Zopp.
  destruct (shl_align mx ex _) as [ax ?], (shl_align my ey _) as [ay ?].
  change (Z.pos (ax, z).1 + Z.pos (ay, z0).1)%Z with (Z.pos (ax + ay)).
  unfold binary_normalize, binary_round.
  destruct (shl_align _ _ _) as [mz ez].
  apply binary_round_aux_not_negative.
Qed.

Lemma not_negative_ltb x : not_negative (Prim2SF x) -> (x <? 0)%float = false.
Proof.
  intros H. rewrite FloatAxioms.ltb_spec. change (Prim2SF 0) with (S754_zero false).
  destruct (Prim2SF x) as [s|s| |s m e]; cbn in *; subst; reflexivity.
Qed.

(** A sum of two squares is never negative: [math.sqrt] of it does not raise. *)
Lemma sum_of_squares_not_negative a b : (a * a + b * b <? 0)%float = false.
Proof.
  apply not_negative_ltb. rewrite add_spec, !mul_spec.
  apply SFadd_not_negative; apply SFmul_square_not_negative.
Qed.

(** [distance] raises exactly when a square overflows, and then
    [OverflowError]; the [ValueError] of [math.sqrt] cannot happen. *)
Lemma distance_cases {S} p q (s : S) :
  GameEngine.distance p q s =
  if distance_overflows p q then Raise OverflowError s
  else Ok (computed_distance p q) s.
Proof.
  unfold GameEngine.distance, distance_overflows, computed_distance, bind, pow2,
    square_overflows. cbv zeta.
  destruct (is_infinity _ && _); [reflexivity|].
  destruct (is_infinity _ && _); [reflexivity|]. cbn [orb].
  unfold math_sqrt, ret. now rewrite sum_of_squares_not_negative.
Qed.

(** ** StateMachine *)

Lemma peek_eq (sm : StateMachine) :
  StateMachine.peek sm = Ok (top (statestack sm)) sm.
Proof.
  unfold StateMachine.peek, try_except, bind, get, top.
  rewrite getitem_last. destruct (last (statestack sm)); reflexivity.
Qed.

Lemma pop_eq (sm : StateMachine) :
  StateMachine.pop sm =
  Ok (top (statestack sm)) {| statestack := removelast (statestack sm) |}.
Proof.
  unfold StateMachine.pop, try_except, bind, get, list_pop, top.
  destruct (last (statestack sm)) eqn:E; cbn; [reflexivity|].
  apply last_None_nil in E. destruct sm as [st]; cbn in *; subst. reflexivity.
Qed.

Lemma push_eq (s : value) (sm : StateMachine) :
  StateMachine.push s sm = Ok s {| statestack := statestack sm ++ [s] |}.
Proof. reflexivity. Qed.

Lemma top_snoc (st : list value) (s : value) : top (st ++ [s]) = s.
Proof. unfold top. now rewrite last_snoc. Qed.

Lemma pops_all (n : nat) (st : list value) :
  length st <= n -> pops n {| statestack := st |} = Ok tt {| statestack := [] |}.
Proof.
  revert st. induction n as [|n IH]; intros st Hlen.
  - destruct st; [reflexivity | cbn in Hlen; lia].
  - cbn [pops]. unfold bind. rewrite pop_eq. cbn [statestack]. apply IH.
    destruct st as [|x st] using rev_ind; [cbn; lia|].
    rewrite removelast_last. rewrite length_app in Hlen. cbn in Hlen. lia.
Qed.

(** C7: [push(s)] returns [s]; [push(s)] then [pop()] returns [s] and gives
    back the stack as it was before the push; [peek()] returns the top
    element and leaves the stack as it is. *)
Theorem stack_round_trip (sm : StateMachine) (s : value) :
  StateMachine.push s sm = Ok s {| statestack := statestack sm ++ [s] |} /\
  (StateMachine.push s ;;; StateMachine.pop) sm = Ok s sm /\
  (forall st x, StateMachine.peek {| statestack := st ++ [x] |}
                = Ok x {| statestack := st ++ [x] |}) /\
  (exists v, StateMachine.peek sm = Ok v sm).
Proof.
  split; [reflexivity|]. split; [|split].
  - unfold bind. rewrite push_eq, pop_eq. cbn [statestack].
    rewrite top_snoc, removelast_last. now destruct sm.
  - intros st x. rewrite peek_eq. cbn [statestack]. now rewrite top_snoc.
  - eexists. apply peek_eq.
Qed.

(** C8: on an empty stack (just constructed, cleared, or emptied by pops)
    [pop()] and [peek()] return [None], which no state token equals, and each
    of the four operations returns normally on every stack. *)
Theorem empty_stack_sentinel :
  (StateMachine.pop StateMachine.init = Ok VNone StateMachine.init /\
   StateMachine.peek StateMachine.init = Ok VNone StateMachine.init) /\
  (forall sm,
     (StateMachine.clear ;;; StateMachine.pop) sm = Ok VNone StateMachine.init /\
     (StateMachine.clear ;;; StateMachine.peek) sm = Ok VNone StateMachine.init) /\
  (forall sm,
     (pops (length (statestack sm)) ;;; StateMachine.pop) sm
       = Ok VNone StateMachine.init /\
     (pops (length (statestack sm)) ;;; StateMachine.peek) sm
       = Ok VNone StateMachine.init) /\
  (forall n : Z, VNone <> VInt n /\ value_eqb VNone (VInt n) = false
                 /\ is_None (VInt n) = false) /\
  (forall sm s,
     (exists v sm', StateMachine.peek sm = Ok v sm') /\
     (exists v sm', StateMachine.pop sm = Ok v sm') /\
     (exists v sm', StateMachine.push s sm = Ok v sm') /\
     (exists sm', StateMachine.clear sm = Ok tt sm')).
Proof.
  split; [split; reflexivity|]. split; [intros sm; split; reflexivity|].
  split.
  - intros [st]. cbn [statestack]. unfold bind.
    rewrite pops_all by lia. split; reflexivity.
  - split; [intros n; repeat split; discriminate|].
    intros sm s. repeat split.
    + do 2 eexists. apply peek_eq.
    + do 2 eexists. apply pop_eq.
    + do 2 eexists. apply push_eq.
    + eexists. reflexivity.
Qed.

(** ** Methods return *)

Create HintDb returns.

Lemma returns_ret {S A} (a : A) : returns (@ret S A a).
Proof. intros s; discriminate. Qed.
Lemma returns_raise {S A} e : returns (@raise S A e).
Proof. intros s; discriminate. Qed.
Lemma returns_get {S} : returns (@get S).
Proof. intros s; discriminate. Qed.
Lemma returns_put {S} (x : S) : returns (put x).
Proof. intros s; discriminate. Qed.
Lemma returns_modify {S} (f : S -> S) : returns (modify f).
Proof. intros s; discriminate. Qed.
Lemma returns_attr {S A} (f : S -> option A) : returns (attr f).
Proof. intros s; unfold attr; destruct (f s); discriminate. Qed.
Lemma returns_bind {S A B} (m : M S A) (k : A -> M S B) :
  returns m -> (forall a, returns (k a)) -> returns (bind m k).
Proof.
  intros Hm Hk s. unfold bind. specialize (Hm s).
  destruct (m s); [apply Hk | discriminate | congruence].
Qed.
Lemma returns_zoom {S T A} (proj : S -> T) upd (m : M T A) :
  returns m -> returns (zoom proj upd m).
Proof.
  intros Hm s. unfold zoom. specialize (Hm (proj s)).
  destruct (m (proj s)); [discriminate | discriminate | congruence].
Qed.
Lemma returns_try_except {S A} (m h : M S A) e :
  returns m -> returns h -> returns (try_except m e h).
Proof.
  intros Hm Hh s. unfold try_except. specialize (Hm s).
  destruct (m s); [discriminate | | congruence].
  destruct (exn_eqb _ _); [apply Hh | discriminate].
Qed.
Lemma returns_getitem {S A} (l : list A) i : returns (@getitem S A l i).
Proof.
  intros s. unfold getitem. destruct (norm_index _ _); [|discriminate].
  destruct (l !! _); discriminate.
Qed.
Lemma returns_setitem {S A} (l : list A) i x : returns (@setitem S A l i x).
Proof. intros s. unfold setitem. destruct (norm_index _ _); discriminate. Qed.
Lemma returns_truediv {S} a b : returns (@truediv S a b).
Proof. intros s. unfold truediv. destruct (_ =? _)%float; discriminate. Qed.
Lemma returns_pow2 {S} x : returns (@pow2 S x).
Proof. intros s. unfold pow2. destruct (_ && _); discriminate. Qed.
Lemma returns_math_sqrt {S} x : returns (@math_sqrt S x).
Proof. intros s. unfold math_sqrt. destruct (_ <? _)%float; discriminate. Qed.
Lemma returns_dict_getitem {S A} (d : gmap string A) k : returns (@dict_getitem S A d k).
Proof. intros s. unfold dict_getitem. destruct (d !! k); discriminate. Qed.

#[local] Hint Resolve returns_ret returns_raise returns_get returns_put
  returns_modify returns_attr returns_zoom returns_try_except returns_getitem
  returns_setitem returns_truediv returns_dict_getitem returns_pow2
  returns_math_sqrt : returns.

Ltac returns_tac :=
  repeat first
    [ progress intros
    | apply returns_bind
    | apply returns_zoom
    | apply returns_try_except
    | solve [auto with returns] ].

Lemma returns_Player_init {S} c pid : returns (@Player.init S c pid).
Proof. unfold Player.init. returns_tac. Qed.
Lemma returns_move_direction c d : returns (Player.move_direction c d).
Proof. unfold Player.move_direction. returns_tac. Qed.
#[local] Hint Resolve returns_Player_init returns_move_direction : returns.

Lemma returns_initialize c : returns (GameEngine.initialize c).
Proof. unfold GameEngine.initialize, on_sm, StateMachine.push. returns_tac. Qed.
Lemma returns_change_position c : returns (GameEngine.change_position c).
Proof. unfold GameEngine.change_position. returns_tac. Qed.
Lemma returns_move_player c pid d : returns (GameEngine.move_player c pid d).
Proof. unfold GameEngine.move_player. returns_tac. Qed.
#[local] Hint Resolve returns_initialize returns_change_position
  returns_move_player : returns.

(** ** The engine's [notify], event by event *)

Lemma on_model_cases {A} (m : M GameEngine A) (w : World) :
  returns m ->
  (exists a g, m (model w) = Ok a g /\ on_model m w = Ok a (set_model g w)) \/
  (exists e g, m (model w) = Raise e g /\ on_model m w = Raise e (set_model g w)).
Proof.
  intros Hm. unfold on_model, zoom. specialize (Hm (model w)).
  destruct (m (model w)) as [a g|e g|]; [left|right|congruence]; eauto.
Qed.

Lemma set_model_id (w : World) : set_model (model w) w = w.
Proof. now destruct w. Qed.

Lemma on_sm_pop (g : GameEngine) :
  on_sm StateMachine.pop g =
  Ok (top (statestack (state_machine g)))
     (set_state_machine
        {| statestack := removelast (statestack (state_machine g)) |} g).
Proof. unfold on_sm, zoom. now rewrite pop_eq. Qed.

Lemma on_sm_peek (g : GameEngine) :
  on_sm StateMachine.peek g = Ok (top (statestack (state_machine g))) g.
Proof. unfold on_sm, zoom. rewrite peek_eq. now destruct g. Qed.

Lemma notify_Continue c p w :
  GameEngine.notify c p EventContinue w =
  Ok tt (set_model
           (set_state_machine
              {| statestack := removelast (statestack (state_machine (model w))) |}
              (model w)) w).
Proof.
  cbn [GameEngine.notify]. unfold bind, on_model, zoom.
  now rewrite on_sm_pop.
Qed.

Lemma notify_Quit c p w :
  GameEngine.notify c p EventQuit w =
  Ok tt (set_model (set_running false (model w)) w).
Proof. reflexivity. Qed.

Lemma notify_push c p w ev s :
  (ev = EventTimesUp /\ s = VInt (STATE_ENDGAME c)) \/
  (ev = EventPause /\ s = VInt (STATE_STOP c)) \/
  (ev = EventStateChange s /\ value_eqb s (VInt (STATE_POP c)) = false) ->
  GameEngine.notify c p ev w =
  Ok tt (set_model
           (set_state_machine
              {| statestack := statestack (state_machine (model w)) ++ [s] |}
              (model w)) w).
Proof.
  intros [[-> ->]|[[-> ->]|[-> H]]]; cbn [GameEngine.notify];
    try rewrite H; reflexivity.
Qed.

Lemma notify_StateChange_POP c p w s :
  value_eqb s (VInt (STATE_POP c)) = true ->
  GameEngine.notify c p (EventStateChange s) w =
  let w' := set_model
              (set_state_machine
                 {| statestack := removelast (statestack (state_machine (model w))) |}
                 (model w)) w in
  if is_None (top (statestack (state_machine (model w))))
  then p EventQuit w' else Ok tt w'.
Proof.
  intros H. cbn [GameEngine.notify]. rewrite H.
  unfold bind, on_model, zoom. rewrite on_sm_pop. cbn zeta.
  destruct (is_None _); reflexivity.
Qed.

Lemma notify_EveryTick c p w :
  GameEngine.notify c p EventEveryTick w =
  let cur := top (statestack (state_machine (model w))) in
  if value_eqb cur (VInt (STATE_MENU c)) then Ok tt w
  else if value_eqb cur (VInt (STATE_PLAY c)) then
    match timer (model w) with
    | None => Raise AttributeError w
    | Some t =>
        let w' := set_model (set_timer (t - 1) (model w)) w in
        if (t - 1 =? 0)%Z then p EventChangePosition w' else Ok tt w'
    end
  else Ok tt w.
Proof.
  destruct w as [ls g po nt].
  cbn [GameEngine.notify]. unfold bind at 1. unfold on_model at 1, zoom.
  rewrite on_sm_peek. cbn.
  destruct (value_eqb _ (VInt (STATE_MENU c))); [reflexivity|].
  destruct (value_eqb _ (VInt (STATE_PLAY c))).
  2:{ destruct (value_eqb _ _); reflexivity. }
  unfold bind, on_model, zoom, GameEngine.update_objects, ret, attr, modify.
  cbn. destruct (timer g) as [t|]; cbn; [|reflexivity].
  destruct (t - 1 =? 0)%Z; reflexivity.
Qed.

Lemma shape_ok_same p ev w : shape p ev w (Ok tt w).
Proof. rewrite <- (set_model_id w) at 2. constructor. Qed.

Lemma shape_raise_same p ev w e : shape p ev w (Raise e w).
Proof. rewrite <- (set_model_id w) at 2. constructor. Qed.

Lemma notify_shape c p ev w : shape p ev w (GameEngine.notify c p ev w).
Proof.
  destruct ev as [| | | | |s| | | |pid d].
  - apply shape_ok_same.
  - cbn [GameEngine.notify].
    destruct (on_model_cases (GameEngine.initialize c) w)
      as [([] & g & _ & ->)|(e & g & _ & ->)]; [auto with returns|..]; constructor.
  - rewrite notify_Quit. constructor.
  - erewrite notify_push by eauto. constructor.
  - rewrite notify_Continue. constructor.
  - destruct (value_eqb s (VInt (STATE_POP c))) eqn:E.
    + rewrite notify_StateChange_POP by assumption. cbn zeta.
      destruct (is_None _); [apply shape_post; exact I | constructor].
    + erewrite notify_push by eauto. constructor.
  - rewrite notify_EveryTick. cbn zeta.
    destruct (value_eqb _ (VInt (STATE_MENU c))); [apply shape_ok_same|].
    destruct (value_eqb _ (VInt (STATE_PLAY c))); [|apply shape_ok_same].
    destruct (timer (model w)) as [t|]; [|apply shape_raise_same].
    destruct (t - 1 =? 0)%Z; [apply shape_post; exact I | constructor].
  - erewrite notify_push by eauto. constructor.
  - cbn [GameEngine.notify].
    destruct (on_model_cases (GameEngine.change_position c) w)
      as [([] & g & _ & ->)|(e & g & _ & ->)]; [auto with returns|..]; constructor.
  - cbn [GameEngine.notify]. unfold bind at 1.
    destruct (on_model_cases (GameEngine.move_player c pid d) w)
      as [([] & g & _ & ->)|(e & g & _ & ->)]; [auto with returns| |constructor].
    unfold GameEngine.check_collision, bind, on_model, zoom, attr.
    cbn -[GameEngine.distance].
    destruct (players g) as [ps|]; [|apply (shape_raise _ _ w AttributeError g)].
    destruct (getitem ps 0 _) as [p0 ?| |] eqn:E0.
    + unfold getitem in E0. destruct (norm_index _ _); [destruct (ps !! _)|];
        inversion E0; subst.
      destruct (getitem ps 1 _) as [p1 ?| |] eqn:E1.
      * unfold getitem in E1. destruct (norm_index _ _); [destruct (ps !! _)|];
          inversion E1; subst.
        rewrite distance_cases.
        destruct (distance_overflows _ _);
          [apply (shape_raise _ _ w OverflowError g)|].
        destruct (_ <? _)%float.
        -- apply (shape_post p _ w g). exact I.
        -- apply (shape_ok p _ w g).
      * unfold getitem in E1. destruct (norm_index _ _); [destruct (ps !! _)|];
          inversion E1; subst; apply (shape_raise _ _ w IndexError g).
      * exfalso. eapply returns_getitem; eauto.
    + unfold getitem in E0. destruct (norm_index _ _); [destruct (ps !! _)|];
        inversion E0; subst; apply (shape_raise _ _ w IndexError g).
    + exfalso. eapply returns_getitem; eauto.
Qed.

Lemma nested_leaf ev e' : nested ev e' -> leaf e'.
Proof. destruct ev, e'; cbn; try tauto; intros _ e''; destruct e''; cbn; tauto. Qed.

Lemma nested_neq ev e' : nested ev e' -> e' <> ev.
Proof. destruct ev, e'; cbn; try tauto; discriminate. Qed.

(** [notify] uses [post] only for the events it may post. *)
Lemma notify_ext c p q ev w :
  (forall e' w', nested ev e' -> p e' w' = q e' w') ->
  GameEngine.notify c p ev w = GameEngine.notify c q ev w.
Proof.
  intros H. destruct ev as [| | | | |s| | | |pid d]; try reflexivity.
  - cbn [GameEngine.notify]. destruct (value_eqb s _); [|reflexivity].
    unfold bind. destruct (on_model _ w) as [r w1|e w1|]; try reflexivity.
    destruct (is_None r); [apply H; exact I|reflexivity].
  - rewrite !notify_EveryTick. cbn zeta.
    destruct (value_eqb _ _); [reflexivity|].
    destruct (value_eqb _ _); [|reflexivity].
    destruct (timer _); [|reflexivity].
    destruct (_ =? _)%Z; [apply H; exact I|reflexivity].
  - cbn [GameEngine.notify]. unfold bind.
    destruct (on_model _ w) as [r w1|e w1|]; try reflexivity.
    unfold GameEngine.check_collision, bind.
    destruct (on_model _ w1) as [ps w2|e w2|]; try reflexivity.
    destruct (getitem ps 0 w2) as [p0 w3|e w3|]; try reflexivity.
    destruct (getitem ps 1 w3) as [p1 w4|e w4|]; try reflexivity.
    destruct (GameEngine.distance p0 p1 w4) as [x w5|e w5|]; try reflexivity.
    destruct (_ <? _)%float; [apply H; exact I|reflexivity].
Qed.

Lemma deliver_ext c p q ls ev w :
  (forall e' w', nested ev e' -> p e' w' = q e' w') ->
  EventManager.deliver c p ls ev w = EventManager.deliver c q ls ev w.
Proof.
  intros H. revert w. induction ls as [|l ls IH]; intros w; [reflexivity|].
  cbn [EventManager.deliver]. unfold bind, modify.
  assert (E : EventManager.notify c p l ev (log_notify l ev w)
              = EventManager.notify c q l ev (log_notify l ev w)).
  { destruct l; [apply notify_ext; assumption | reflexivity]. }
  rewrite E. destruct (EventManager.notify c q l ev _); auto.
Qed.

Lemma post_unfold n c ev w :
  EventManager.post (S n) c ev w =
  EventManager.deliver c (EventManager.post n c) (listeners w) ev (log_post ev w).
Proof. reflexivity. Qed.

Lemma post_leaf_fuel n c ev w :
  leaf ev -> EventManager.post (S n) c ev w = EventManager.post 1 c ev w.
Proof.
  intros H. rewrite !post_unfold. apply deliver_ext.
  intros e' w' Hn. destruct (H e' Hn).
Qed.

(** Two units of fuel are as good as any larger amount. *)
Lemma post_fuel_enough n c ev w :
  EventManager.post (S (S n)) c ev w = EventManager.post 2 c ev w.
Proof.
  rewrite !post_unfold. apply deliver_ext. intros e' w' Hn.
  apply post_leaf_fuel. eapply nested_leaf; eauto.
Qed.

Lemma deliver_returns c p ls ev :
  (forall e', nested ev e' -> returns (p e')) ->
  returns (EventManager.deliver c p ls ev).
Proof.
  intros H. induction ls as [|l ls IH]; [apply returns_ret|].
  cbn [EventManager.deliver]. apply returns_bind; [apply returns_modify|].
  intros _. apply returns_bind; [|intros _; exact IH].
  destruct l; [|apply returns_ret].
  intros w. cbn [EventManager.notify].
  destruct (notify_shape c p ev w); try discriminate. now apply H.
Qed.

Lemma post_leaf_returns n c ev : leaf ev -> returns (EventManager.post (S n) c ev).
Proof.
  intros H w. rewrite post_unfold. apply deliver_returns.
  intros e' Hn. destruct (H e' Hn).
Qed.

(** With two units of fuel or more, [post] returns or raises. *)
Lemma post_returns n c ev : returns (EventManager.post (S (S n)) c ev).
Proof.
  intros w. rewrite post_unfold. apply deliver_returns.
  intros e' Hn. apply post_leaf_returns. eapply nested_leaf; eauto.
Qed.

(** ** What [post] leaves alone *)

Lemma deliver_listeners c p ls ev w :
  (forall e' w', nested ev e' ->
     after (fun w'' => listeners w'' = listeners w') (p e' w')) ->
  after (fun w' => listeners w' = listeners w) (EventManager.deliver c p ls ev w).
Proof.
  intros H. revert w. induction ls as [|l ls IH]; intros w; [reflexivity|].
  cbn [EventManager.deliver]. unfold bind at 1. unfold modify.
  unfold bind.
  assert (Hl : after (fun w' => listeners w' = listeners w)
                 (EventManager.notify c p l ev (log_notify l ev w))).
  { destruct l; [|reflexivity]. cbn [EventManager.notify].
    destruct (notify_shape c p ev (log_notify TheModel ev w)) as [g|e g|g e' Hn];
      [reflexivity|reflexivity|].
    specialize (H e' (set_model g (log_notify TheModel ev w)) Hn).
    destruct (p e' _); cbn in *; auto. }
  destruct (EventManager.notify c p l ev _) as [[] w1|e w1|]; cbn in *; auto.
  specialize (IH w1). destruct (EventManager.deliver c p ls ev w1); cbn in *;
    congruence.
Qed.

(** No [notify] registers a listener: [post] leaves [listeners] as it found it. *)
Lemma post_listeners n c ev w :
  after (fun w' => listeners w' = listeners w) (EventManager.post n c ev w).
Proof.
  revert ev w. induction n as [|n IH]; intros ev w; [exact I|].
  rewrite post_unfold.
  apply (deliver_listeners c _ (listeners w) ev (log_post ev w)).
  intros e' w' _. apply IH.
Qed.

(** ** The [notify] calls of a delivery *)

Lemma register_all_eq ls w :
  register_all ls w = Ok tt (set_listeners (listeners w ++ ls) w).
Proof.
  revert w. induction ls as [|l ls IH]; intros w.
  - cbn. rewrite app_nil_r. now destruct w.
  - cbn [register_all]. unfold bind, EventManager.register_listener, modify.
    rewrite IH. cbn. now rewrite <- app_assoc.
Qed.

Lemma calls_with_other ev e' ls : e' <> ev -> calls_with ev (calls ls e') = [].
Proof.
  intros H. induction ls as [|l ls IH]; [reflexivity|]. cbn.
  now rewrite bool_decide_eq_false_2.
Qed.

Lemma calls_with_app ev cs1 cs2 :
  calls_with ev (cs1 ++ cs2) = calls_with ev cs1 ++ calls_with ev cs2.
Proof. apply List.filter_app. Qed.

(** One listener's turn in a delivery: whatever its [notify] does, the log
    grows by that call and by calls for other events only. *)
Lemma notify_turn c n l ev w :
  (forall e' w0, leaf e' ->
     after (fun w1 => exists cs, notified w1 = notified w0 ++ cs
                                 /\ forall e'', e' <> e'' -> calls_with e'' cs = [])
       (EventManager.post n c e' w0)) ->
  after (fun w1 => exists cs, notified w1 = notified w ++ (l, ev) :: cs
                              /\ calls_with ev cs = [])
    (EventManager.notify c (EventManager.post n c) l ev (log_notify l ev w)).
Proof.
  intros Hpost. destruct l as [|k]; [|exists []; split; reflexivity].
  cbn [EventManager.notify].
  destruct (notify_shape c (EventManager.post n c) ev (log_notify TheModel ev w))
    as [g|e g|g e' Hn]; [exists []; split; reflexivity..|].
  specialize (Hpost e' (set_model g (log_notify TheModel ev w)) (nested_leaf _ _ Hn)).
  destruct (EventManager.post n c e' _) as [[] w1|e w1|]; cbn in *; [| |exact I].
  - destruct Hpost as (cs & E & Hcs). exists cs. split.
    + rewrite E, <- app_assoc. reflexivity.
    + apply Hcs. eapply nested_neq; eauto.
  - destruct Hpost as (cs & E & Hcs). exists cs. split.
    + rewrite E, <- app_assoc. reflexivity.
    + apply Hcs. eapply nested_neq; eauto.
Qed.

Lemma take_calls_with ev k ls cs1 cs :
  calls_with ev cs1 = [] ->
  calls_with ev cs = calls (take k ls) ev ->
  forall l, calls_with ev ((l, ev) :: cs1 ++ cs) = calls (take (S k) (l :: ls)) ev.
Proof.
  intros H1 H l. cbn. rewrite bool_decide_eq_true_2 by reflexivity.
  fold (calls_with ev (cs1 ++ cs)). now rewrite calls_with_app, H1, H.
Qed.

Lemma deliver_trace c n ls ev w :
  (forall e' w0, leaf e' ->
     after (fun w1 => exists cs, notified w1 = notified w0 ++ cs
                                 /\ forall e'', e' <> e'' -> calls_with e'' cs = [])
       (EventManager.post n c e' w0)) ->
  delivery_trace ev ls w (EventManager.deliver c (EventManager.post n c) ls ev w).
Proof.
  intros Hpost. revert w. induction ls as [|l ls IH]; intros w.
  - exists []. split; [now rewrite app_nil_r|reflexivity].
  - cbn [EventManager.deliver]. unfold bind, modify.
    pose proof (notify_turn c n l ev w Hpost) as Hturn.
    destruct (EventManager.notify c _ l ev _) as [[] w1|e w1|]; cbn in Hturn;
      [| |exact I].
    + destruct Hturn as (cs1 & E1 & H1). specialize (IH w1).
      destruct (EventManager.deliver c _ ls ev w1) as [[] w2|e w2|]; cbn in *;
        [| |exact I].
      * destruct IH as (cs & E & H). exists ((l, ev) :: cs1 ++ cs). split.
        -- rewrite E, E1, <- app_assoc. reflexivity.
        -- now apply take_calls_with.
      * destruct IH as (k & Hk & cs & E & H). exists (S k). split; [lia|].
        exists ((l, ev) :: cs1 ++ cs). split.
        -- rewrite E, E1, <- app_assoc. reflexivity.
        -- now apply take_calls_with.
    + destruct Hturn as (cs1 & E1 & H1). exists 0%nat. split; [cbn; lia|].
      exists ((l, ev) :: cs1). split; [exact E1|].
      cbn. rewrite bool_decide_eq_true_2 by reflexivity.
      fold (calls_with ev cs1). now rewrite H1.
Qed.

Lemma post_leaf_trace n c e' w0 :
  leaf e' ->
  after (fun w1 => exists cs, notified w1 = notified w0 ++ cs
                              /\ forall e'', e' <> e'' -> calls_with e'' cs = [])
    (EventManager.post n c e' w0).
Proof.
  intros Hleaf. destruct n as [|n]; [exact I|]. rewrite post_unfold.
  assert (H : forall ls w,
    after (fun w1 => exists k, notified w1 = notified w ++ calls (take k ls) e')
      (EventManager.deliver c (EventManager.post n c) ls e' w)).
  { induction ls as [|l ls IH]; intros w.
    - exists 0%nat. cbn. now rewrite app_nil_r.
    - cbn [EventManager.deliver]. unfold bind, modify.
      assert (Hl : after (fun w1 => notified w1 = notified w ++ [(l, e')])
                (EventManager.notify c (EventManager.post n c) l e'
                   (log_notify l e' w))).
      { destruct l as [|k]; [|reflexivity]. cbn [EventManager.notify].
        destruct (notify_shape c (EventManager.post n c) e'
                    (log_notify TheModel e' w)) as [g|e g|g e'' Hn];
          [reflexivity|reflexivity|destruct (Hleaf e'' Hn)]. }
      destruct (EventManager.notify c _ l e' _) as [[] w1|e w1|]; cbn in Hl;
        [| |exact I].
      + specialize (IH w1).
        destruct (EventManager.deliver c _ ls e' w1) as [[] w2|e w2|]; cbn in *;
          [| |exact I]; destruct IH as (k & E); exists (S k);
          rewrite E, Hl, <- app_assoc; reflexivity.
      + exists 1%nat. cbn. rewrite take_0. exact Hl. }
  specialize (H (listeners w0) (log_post e' w0)).
  destruct (EventManager.deliver c _ _ e' _) as [[] w1|e w1|]; cbn in *;
    [| |exact I]; destruct H as (k & E); eexists; (split; [exact E|]);
    intros e'' Hne; now apply calls_with_other.
Qed.

(** C2 (amended): [post(ev)] notifies the registered entries in registration
    order, duplicates included, one [notify(ev)] call each.  When it returns,
    every entry was notified; when a [notify] raises, the exception leaves
    [post] and the entries after the raising one are not notified.  Listeners
    registered on top of those already present come after them. *)
Theorem registration_order_delivery c n ev ls w :
  (forall w',
     (register_all ls ;;; EventManager.post (S (S n)) c ev) w = Ok tt w' ->
     exists cs, notified w' = notified w ++ cs /\
                calls_with ev cs = calls (listeners w ++ ls) ev) /\
  (forall e w',
     (register_all ls ;;; EventManager.post (S (S n)) c ev) w = Raise e w' ->
     exists cs k, (k < length (listeners w ++ ls))%nat /\
                  notified w' = notified w ++ cs /\
                  calls_with ev cs = calls (take (S k) (listeners w ++ ls)) ev) /\
  (register_all ls ;;; EventManager.post (S (S n)) c ev) w <> OutOfFuel.
Proof.
  unfold bind. rewrite register_all_eq.
  pose proof (deliver_trace c (S n) (listeners w ++ ls) ev
                (log_post ev (set_listeners (listeners w ++ ls) w))
                (post_leaf_trace (S n) c)) as H.
  pose proof (post_returns n c ev (set_listeners (listeners w ++ ls) w)) as Hr.
  rewrite post_unfold in *. cbn [listeners set_listeners] in *.
  split; [|split; [|exact Hr]].
  - intros w' E. rewrite E in H. destruct H as (cs & E1 & H).
    rewrite firstn_all in H. eauto.
  - intros e w' E. rewrite E in H. destruct H as (k & Hk & cs & E1 & H). eauto.
Qed.

Lemma registration_order_delivery_witness :
  exists cs,
    notified
      (run_from fresh_world
         (register_all [Probe 0; TheModel; Probe 0] ;;;
          EventManager.post 2 sample_const EventPause))
      = notified fresh_world ++ cs /\
    calls_with EventPause cs
      = calls (listeners fresh_world ++ [Probe 0; TheModel; Probe 0]) EventPause.
Proof.
  apply (proj1 (registration_order_delivery sample_const 0 EventPause
                  [Probe 0; TheModel; Probe 0] fresh_world)).
  vm_compute. reflexivity.
Defined.

(** C2, as stated, fails: the engine raises on a [PlayerMove] for player 2,
    and the probe registered after it is never notified. *)
Lemma raising_listener_aborts_delivery :
  listeners observed_world = [TheModel; Probe 0] /\
  exists w',
    EventManager.post 2 sample_const (EventPlayerMove 2 "up") observed_world
      = Raise IndexError w' /\
    notified w' = notified observed_world ++ [(TheModel, EventPlayerMove 2 "up")] /\
    calls_with (EventPlayerMove 2 "up") (notified w')
      <> calls (listeners observed_world) (EventPlayerMove 2 "up").
Proof.
  split; [reflexivity|]. eexists. split; [vm_compute; reflexivity|].
  split; [reflexivity|]. vm_compute. discriminate.
Qed.

(** ** Deliveries to a list that holds the engine once *)

Lemma deliver_app c p l1 l2 ev w :
  EventManager.deliver c p (l1 ++ l2) ev w =
  (EventManager.deliver c p l1 ev ;;; EventManager.deliver c p l2 ev) w.
Proof.
  revert w. induction l1 as [|l l1 IH]; intros w; [reflexivity|].
  cbn [app EventManager.deliver]. unfold bind, modify.
  destruct (EventManager.notify c p l ev _) as [[] w1|e w1|]; try reflexivity.
  rewrite IH. reflexivity.
Qed.

Lemma add_notified_app cs1 cs2 w :
  add_notified cs2 (add_notified cs1 w) = add_notified (cs1 ++ cs2) w.
Proof. unfold add_notified. cbn. now rewrite <- app_assoc. Qed.

Lemma deliver_probes c p ls ev w :
  model_count ls = 0%nat ->
  EventManager.deliver c p ls ev w = Ok tt (add_notified (calls ls ev) w).
Proof.
  revert w. induction ls as [|l ls IH]; intros w H.
  - unfold add_notified. cbn. rewrite app_nil_r. now destruct w.
  - destruct l as [|k]; [discriminate|].
    cbn [EventManager.deliver]. unfold bind, modify. cbn [EventManager.notify ret].
    rewrite IH by exact H.
    change (log_notify (Probe k) ev w) with (add_notified [(Probe k, ev)] w).
    now rewrite add_notified_app.
Qed.

Lemma model_count_one ls :
  model_count ls = 1%nat ->
  exists pre suf, ls = pre ++ TheModel :: suf /\
    model_count pre = 0%nat /\ model_count suf = 0%nat.
Proof.
  induction ls as [|l ls IH]; [discriminate|]. destruct l as [|k].
  - intros H. exists [], ls. repeat split. now inversion H.
  - intros H. destruct (IH H) as (pre & suf & -> & H1 & H2).
    exists (Probe k :: pre), suf. repeat split; assumption.
Qed.

Lemma deliver_once c p pre suf ev w :
  model_count pre = 0%nat ->
  EventManager.deliver c p (pre ++ TheModel :: suf) ev w =
  (GameEngine.notify c p ev ;;; EventManager.deliver c p suf ev)
    (add_notified (calls pre ev ++ [(TheModel, ev)]) w).
Proof.
  intros H. rewrite deliver_app. unfold bind at 1.
  rewrite deliver_probes by exact H.
  cbn [EventManager.deliver]. unfold bind at 1. unfold modify.
  change (log_notify TheModel ev (add_notified (calls pre ev) w))
    with (add_notified [(TheModel, ev)] (add_notified (calls pre ev) w)).
  rewrite add_notified_app. reflexivity.
Qed.

(** Posting an event that the engine handles by a method [m] of its own,
    to a list that holds the engine once. *)
Lemma post_once n c ev (m : M GameEngine unit) w g' :
  (forall p w0, GameEngine.notify c p ev w0 = on_model m w0) ->
  model_count (listeners w) = 1%nat ->
  m (model w) = Ok tt g' ->
  EventManager.post (S n) c ev w =
  Ok tt {| listeners := listeners w; model := g'; posted := posted w ++ [ev];
           notified := notified w ++ calls (listeners w) ev |}.
Proof.
  intros Hm Hc Hg. rewrite post_unfold.
  destruct (model_count_one _ Hc) as (pre & suf & E & Hpre & Hsuf).
  rewrite E at 1. rewrite deliver_once by exact Hpre.
  unfold bind. rewrite Hm. unfold on_model, zoom. cbn [model add_notified log_post].
  rewrite Hg. rewrite deliver_probes by exact Hsuf.
  unfold add_notified, set_model, calls. cbn. rewrite E at 3.
  rewrite map_app. cbn. now rewrite <- !app_assoc.
Qed.

(** C6: [EventContinue] pops whatever the stack holds: the top goes if there
    is one, an empty stack stays empty; it always returns, and it posts
    nothing, whatever [post] would do. *)
Theorem continue_pops_unconditionally c p w :
  exists w',
    GameEngine.notify c p EventContinue w = Ok tt w' /\
    statestack (state_machine (model w'))
      = removelast (statestack (state_machine (model w))) /\
    (forall st x, statestack (state_machine (model w)) = st ++ [x] ->
                  statestack (state_machine (model w')) = st) /\
    (statestack (state_machine (model w)) = [] ->
     statestack (state_machine (model w')) = []) /\
    posted w' = posted w /\ notified w' = notified w /\
    listeners w' = listeners w /\ running (model w') = running (model w).
Proof.
  eexists. split; [apply notify_Continue|]. cbn. repeat split.
  - intros st x ->. apply removelast_last.
  - intros ->. reflexivity.
Qed.

(** ** Lifting the engine's [notify] to [post] *)

Lemma post_once_lift n c ev w (R : GameEngine -> list Event -> Prop) :
  model_count (listeners w) = 1%nat ->
  (forall w0, model w0 = model w -> posted w0 = posted w ++ [ev] ->
              listeners w0 = listeners w ->
     exists w1, GameEngine.notify c (EventManager.post n c) ev w0 = Ok tt w1 /\
                R (model w1) (posted w1) /\ listeners w1 = listeners w) ->
  exists w', EventManager.post (S n) c ev w = Ok tt w' /\
             R (model w') (posted w') /\ listeners w' = listeners w.
Proof.
  intros Hc H.
  destruct (model_count_one _ Hc) as (pre & suf & E & Hpre & Hsuf).
  destruct (H (add_notified (calls pre ev ++ [(TheModel, ev)]) (log_post ev w)))
    as (w1 & Hn & HR & Hl); try reflexivity.
  exists (add_notified (calls suf ev) w1). split; [|split; assumption].
  rewrite post_unfold. rewrite E at 1. rewrite deliver_once by exact Hpre.
  unfold bind. rewrite Hn. apply deliver_probes, Hsuf.
Qed.

Lemma deliver_Quit c p ls w :
  exists w', EventManager.deliver c p ls EventQuit w = Ok tt w' /\
    posted w' = posted w /\ listeners w' = listeners w /\
    quit_only (model w) (model w').
Proof.
  revert w. induction ls as [|l ls IH]; intros w.
  - exists w. repeat split.
  - cbn [EventManager.deliver]. unfold bind, modify.
    destruct l as [|k]; cbn [EventManager.notify].
    + rewrite notify_Quit.
      destruct (IH (set_model (set_running false (model (log_notify TheModel EventQuit w)))
                      (log_notify TheModel EventQuit w)))
        as (w' & -> & Hp & Hl & Hs & Hr & Hpl & Ht).
      exists w'. repeat split; assumption.
    + cbn [ret].
      destruct (IH (log_notify (Probe k) EventQuit w))
        as (w' & -> & Hp & Hl & Hq).
      exists w'. repeat split; try assumption; apply Hq.
Qed.

Lemma post_Quit n c w :
  exists w', EventManager.post (S n) c EventQuit w = Ok tt w' /\
    posted w' = posted w ++ [EventQuit] /\ listeners w' = listeners w /\
    quit_only (model w) (model w').
Proof.
  rewrite post_unfold.
  destruct (deliver_Quit c (EventManager.post n c) (listeners w)
              (log_post EventQuit w)) as (w' & -> & Hp & Hl & Hq).
  exists w'. repeat split; try assumption; apply Hq.
Qed.

(** ** State changes *)

Lemma value_eqb_refl v : value_eqb v v = true.
Proof. destruct v; cbn; [reflexivity|apply Z.eqb_refl]. Qed.

(** The engine handling [StateChange(POP)]: [Quit] is posted exactly when
    [pop()] returned [None]. *)
Lemma notify_POP n c w :
  exists w',
    GameEngine.notify c (EventManager.post (S n) c)
      (EventStateChange (VInt (STATE_POP c))) w = Ok tt w' /\
    statestack (state_machine (model w'))
      = removelast (statestack (state_machine (model w))) /\
    posted w' = posted w ++
      (if is_None (top (statestack (state_machine (model w))))
       then [EventQuit] else []) /\
    listeners w' = listeners w.
Proof.
  rewrite notify_StateChange_POP by apply value_eqb_refl. cbn zeta.
  destruct (is_None _).
  - match goal with |- context [EventManager.post _ _ _ ?w1] =>
      destruct (post_Quit n c w1) as (w' & -> & Hp & Hl & Hs & _) end.
    exists w'. rewrite Hs, Hp, Hl. repeat split.
  - eexists. split; [reflexivity|]. cbn. now rewrite app_nil_r.
Qed.

(** C1 (amended): with the engine registered once, posting [StateChange(POP)]
    on an empty stack posts one [Quit]; on a stack of exactly one state token
    it empties the stack and posts no [Quit]. *)
Theorem pop_on_empty_stack_quits c n w :
  model_count (listeners w) = 1%nat ->
  (statestack (state_machine (model w)) = [] ->
   exists w',
     EventManager.post (S (S n)) c (EventStateChange (VInt (STATE_POP c))) w
       = Ok tt w' /\
     posted w' = posted w ++ [EventStateChange (VInt (STATE_POP c)); EventQuit] /\
     statestack (state_machine (model w')) = []) /\
  (forall t, statestack (state_machine (model w)) = [VInt t] ->
   exists w',
     EventManager.post (S (S n)) c (EventStateChange (VInt (STATE_POP c))) w
       = Ok tt w' /\
     posted w' = posted w ++ [EventStateChange (VInt (STATE_POP c))] /\
     statestack (state_machine (model w')) = []).
Proof.
  intros Hc. split.
  - intros Hst.
    destruct (post_once_lift (S n) c (EventStateChange (VInt (STATE_POP c))) w
      (fun g po => po = posted w ++ [EventStateChange (VInt (STATE_POP c)); EventQuit]
                   /\ statestack (state_machine g) = []) Hc)
      as (w' & E & [Hp Hs] & _).
    + intros w0 Hm Hpo Hl. destruct (notify_POP n c w0) as (w1 & E & Hs & Hp & Hl1).
      exists w1. rewrite Hm, Hst in Hs, Hp. cbn in Hs, Hp.
      rewrite Hpo, <- app_assoc in Hp. repeat split; try assumption. congruence.
    + eauto.
  - intros t Hst.
    destruct (post_once_lift (S n) c (EventStateChange (VInt (STATE_POP c))) w
      (fun g po => po = posted w ++ [EventStateChange (VInt (STATE_POP c))]
                   /\ statestack (state_machine g) = []) Hc)
      as (w' & E & [Hp Hs] & _).
    + intros w0 Hm Hpo Hl. destruct (notify_POP n c w0) as (w1 & E & Hs & Hp & Hl1).
      exists w1. rewrite Hm, Hst in Hs, Hp. cbn in Hs, Hp.
      rewrite Hpo, app_nil_r in Hp. repeat split; try assumption. congruence.
    + eauto.
Qed.

Lemma pop_on_empty_stack_quits_witness :
  (statestack (state_machine (model fresh_world)) = [] /\
   exists w',
     EventManager.post 2 sample_const (EventStateChange (VInt 0)) fresh_world
       = Ok tt w' /\
     posted w' = [EventStateChange (VInt 0); EventQuit] /\
     statestack (state_machine (model w')) = []) /\
  (statestack (state_machine (model started_world)) = [VInt 1] /\
   exists w',
     EventManager.post 2 sample_const (EventStateChange (VInt 0)) started_world
       = Ok tt w' /\
     posted w' = [EventInitialize; EventStateChange (VInt 0)] /\
     statestack (state_machine (model w')) = []).
Proof.
  split; (split; [reflexivity|]).
  - exact (proj1 (pop_on_empty_stack_quits sample_const 0 fresh_world eq_refl) eq_refl).
  - exact (proj2 (pop_on_empty_stack_quits sample_const 0 started_world eq_refl)
             1%Z eq_refl).
Defined.

(** C1, as stated, fails: the stack holds exactly [MENU], [StateChange(POP)]
    is posted, the stack is emptied and no [Quit] is posted. *)
Lemma pop_last_state_posts_no_quit :
  statestack (state_machine (model started_world)) = [VInt (STATE_MENU sample_const)] /\
  exists w',
    EventManager.post 2 sample_const
      (EventStateChange (VInt (STATE_POP sample_const))) started_world = Ok tt w' /\
    posted w' = [EventInitialize; EventStateChange (VInt (STATE_POP sample_const))] /\
    ~ In EventQuit (posted w').
Proof.
  split; [reflexivity|]. eexists. split; [vm_compute; reflexivity|].
  split; [reflexivity|]. cbn. intros [H|[H|[]]]; discriminate.
Qed.

(** ** Moving a player *)

Lemma move_direction_eq c d v p :
  (FPS c =? 0)%float = false ->
  DIRECTION_TO_VEC2 c !! d = Some v ->
  Player.move_direction c d p = Ok tt (moved c v p).
Proof.
  intros HF Hd. unfold Player.move_direction, bind, get, truediv, dict_getitem.
  rewrite HF. cbn. rewrite Hd. reflexivity.
Qed.

Lemma norm_index_two pid :
  norm_index 2 pid =
  if decide (pid = 0 \/ pid = -2)%Z then Some 0%nat
  else if decide (pid = 1 \/ pid = -1)%Z then Some 1%nat
  else None.
Proof.
  unfold norm_index. change (Z.of_nat 2) with 2%Z. cbn zeta.
  destruct (Z.ltb_spec pid 0).
  - destruct (Z.ltb_spec (pid + 2) 0); cbn [orb].
    + repeat case_decide; try lia. reflexivity.
    + destruct (Z.leb_spec 2 (pid + 2)); [lia|].
      repeat case_decide; try lia.
      * replace pid with (-2)%Z by lia. reflexivity.
      * replace pid with (-1)%Z by lia. reflexivity.
  - destruct (Z.ltb_spec pid 0); [lia|]. cbn [orb].
    destruct (Z.leb_spec 2 pid).
    + repeat case_decide; try lia. reflexivity.
    + repeat case_decide; try lia.
      * replace pid with 0%Z by lia. reflexivity.
      * replace pid with 1%Z by lia. reflexivity.
Qed.

Lemma move_player_two c pid d v g p0 p1 :
  players g = Some [p0; p1] ->
  (FPS c =? 0)%float = false ->
  DIRECTION_TO_VEC2 c !! d = Some v ->
  GameEngine.move_player c pid d g =
  if decide (pid = 0 \/ pid = -2)%Z then Ok tt (set_players [moved c v p0; p1] g)
  else if decide (pid = 1 \/ pid = -1)%Z then Ok tt (set_players [p0; moved c v p1] g)
  else Raise IndexError g.
Proof.
  intros Hp HF Hd. unfold GameEngine.move_player, bind, attr. rewrite Hp.
  unfold getitem, zoom, list_store. cbn [length]. rewrite norm_index_two.
  repeat case_decide; cbn -[Player.move_direction]; try reflexivity;
    rewrite (move_direction_eq c d v) by assumption; reflexivity.
Qed.

Lemma getitem_pair_0 {S A} (a b : A) (s : S) : getitem [a; b] 0 s = Ok a s.
Proof. reflexivity. Qed.

Lemma getitem_pair_1 {S A} (a b : A) (s : S) : getitem [a; b] 1 s = Ok b s.
Proof. reflexivity. Qed.

Lemma check_collision_overflow c p w q0 q1 :
  players (model w) = Some [q0; q1] ->
  distance_overflows q0 q1 = true ->
  GameEngine.check_collision c p w = Raise OverflowError w.
Proof.
  intros Hp Ho. unfold GameEngine.check_collision, bind, on_model, zoom, attr.
  rewrite Hp. rewrite getitem_pair_0, getitem_pair_1, distance_cases, Ho.
  now rewrite set_model_id.
Qed.

Lemma check_collision_eq n c w q0 q1 :
  players (model w) = Some [q0; q1] ->
  distance_overflows q0 q1 = false ->
  exists w',
    GameEngine.check_collision c (EventManager.post (S n) c) w = Ok tt w' /\
    posted w' = posted w ++
      (if (computed_distance q0 q1 <? 2 * PLAYER_RADIUS c)%float
       then [EventQuit] else []) /\
    listeners w' = listeners w /\ quit_only (model w) (model w').
Proof.
  intros Hp Ho. unfold GameEngine.check_collision, bind, on_model, zoom, attr.
  rewrite Hp. rewrite getitem_pair_0, getitem_pair_1, distance_cases, Ho.
  destruct (_ <? _)%float eqn:E; cbn [app].
  - match goal with |- context [EventManager.post _ _ _ ?w1] =>
      destruct (post_Quit n c w1) as (w' & -> & Hpo & Hl & Hq) end.
    exists w'. repeat split; try assumption; apply Hq.
  - eexists. split; [reflexivity|]. cbn. rewrite app_nil_r. repeat split.
Qed.

(** The engine handling [PlayerMove] when both players exist, the frame rate
    is not zero and the direction is in the table. *)
Lemma notify_PlayerMove n c w pid d v p0 p1 q0 q1 :
  players (model w) = Some [p0; p1] ->
  (FPS c =? 0)%float = false ->
  DIRECTION_TO_VEC2 c !! d = Some v ->
  (-2 <= pid <= 1)%Z ->
  (if decide (pid = 0 \/ pid = -2)%Z
   then [moved c v p0; p1] else [p0; moved c v p1]) = [q0; q1] ->
  distance_overflows q0 q1 = false ->
  exists w',
    GameEngine.notify c (EventManager.post (S n) c) (EventPlayerMove pid d) w
      = Ok tt w' /\
    players (model w') = Some [q0; q1] /\
    posted w' = posted w ++
      (if (computed_distance q0 q1 <? 2 * PLAYER_RADIUS c)%float
       then [EventQuit] else []) /\
    listeners w' = listeners w.
Proof.
  intros Hp HF Hd Hr Eps Ho. cbn [GameEngine.notify]. unfold bind at 1.
  unfold on_model, zoom. rewrite (move_player_two c pid d v _ p0 p1) by assumption.
  assert ((if decide (pid = 0 \/ pid = -2)%Z
     then Ok tt (set_players [moved c v p0; p1] (model w))
     else if decide (pid = 1 \/ pid = -1)%Z
          then Ok tt (set_players [p0; moved c v p1] (model w))
          else Raise IndexError (model w)) = Ok tt (set_players [q0; q1] (model w)))
    as ->.
  { rewrite <- Eps. repeat case_decide; try lia; eauto. }
  destruct (check_collision_eq n c (set_model (set_players [q0; q1] (model w)) w) q0 q1)
    as (w' & -> & Hpo & Hl & Hq); [reflexivity|assumption|].
  exists w'. split; [reflexivity|]. cbn in *.
  destruct Hq as (_ & _ & Hpl & _). repeat split; assumption.
Qed.

(** The same when a square of the distance overflows: the player has moved,
    nothing is posted. *)
Lemma notify_PlayerMove_overflow c p w pid d v p0 p1 q0 q1 :
  players (model w) = Some [p0; p1] ->
  (FPS c =? 0)%float = false ->
  DIRECTION_TO_VEC2 c !! d = Some v ->
  (-2 <= pid <= 1)%Z ->
  (if decide (pid = 0 \/ pid = -2)%Z
   then [moved c v p0; p1] else [p0; moved c v p1]) = [q0; q1] ->
  distance_overflows q0 q1 = true ->
  GameEngine.notify c p (EventPlayerMove pid d) w
    = Raise OverflowError (set_model (set_players [q0; q1] (model w)) w).
Proof.
  intros Hp HF Hd Hr Eps Ho. cbn [GameEngine.notify]. unfold bind at 1.
  unfold on_model, zoom. rewrite (move_player_two c pid d v _ p0 p1) by assumption.
  assert ((if decide (pid = 0 \/ pid = -2)%Z
     then Ok tt (set_players [moved c v p0; p1] (model w))
     else if decide (pid = 1 \/ pid = -1)%Z
          then Ok tt (set_players [p0; moved c v p1] (model w))
          else Raise IndexError (model w)) = Ok tt (set_players [q0; q1] (model w)))
    as ->.
  { rewrite <- Eps. repeat case_decide; try lia; eauto. }
  now apply (check_collision_overflow c p _ q0 q1).
Qed.

(** C10: [players[player_id]] is a plain list lookup.  With two players, ids
    0 and -2 move the first player and ids 1 and -1 the second: the lookup
    and the move succeed, and [notify] returns, unless the distance check
    that follows the move overflows, which is an [OverflowError] with the
    player moved.  Any other integer raises [IndexError], which leaves
    [notify] and [post]: the listeners registered after the engine are not
    notified. *)
Theorem player_move_unchecked_index c n w p0 p1 d v pid :
  players (model w) = Some [p0; p1] ->
  (FPS c =? 0)%float = false ->
  DIRECTION_TO_VEC2 c !! d = Some v ->
  ((pid = 0 \/ pid = -2)%Z ->
   exists w',
     players (model w') = Some [moved c v p0; p1] /\
     GameEngine.notify c (EventManager.post (S n) c) (EventPlayerMove pid d) w =
       if distance_overflows (moved c v p0) p1 then Raise OverflowError w'
       else Ok tt w') /\
  ((pid = 1 \/ pid = -1)%Z ->
   exists w',
     players (model w') = Some [p0; moved c v p1] /\
     GameEngine.notify c (EventManager.post (S n) c) (EventPlayerMove pid d) w =
       if distance_overflows p0 (moved c v p1) then Raise OverflowError w'
       else Ok tt w') /\
  ((pid < -2 \/ 1 < pid)%Z ->
   GameEngine.notify c (EventManager.post (S n) c) (EventPlayerMove pid d) w
     = Raise IndexError w /\
   forall pre suf,
     listeners w = pre ++ TheModel :: suf -> model_count pre = 0%nat ->
     EventManager.post (S (S n)) c (EventPlayerMove pid d) w =
     Raise IndexError
       (add_notified (calls pre (EventPlayerMove pid d)
                        ++ [(TheModel, EventPlayerMove pid d)])
          (log_post (EventPlayerMove pid d) w))).
Proof.
  intros Hp HF Hd. split; [|split].
  - intros Hpid. destruct (distance_overflows _ _) eqn:Ho.
    + eexists. split; [|apply (notify_PlayerMove_overflow _ _ _ _ _ v p0 p1);
        try eassumption; [lia|now rewrite decide_True]]. reflexivity.
    + destruct (notify_PlayerMove n c w pid d v p0 p1 (moved c v p0) p1)
        as (w' & E & Hpl & _); try assumption; [lia|now rewrite decide_True|].
      eauto.
  - intros Hpid. destruct (distance_overflows _ _) eqn:Ho.
    + eexists. split; [|apply (notify_PlayerMove_overflow _ _ _ _ _ v p0 p1);
        try eassumption; [lia|rewrite decide_False by lia; reflexivity]]. reflexivity.
    + destruct (notify_PlayerMove n c w pid d v p0 p1 p0 (moved c v p1))
        as (w' & E & Hpl & _); try assumption;
        [lia|rewrite decide_False by lia; reflexivity|].
      eauto.
  - intros Hpid.
    assert (Hraise : forall w0, model w0 = model w ->
      GameEngine.notify c (EventManager.post (S n) c) (EventPlayerMove pid d) w0
        = Raise IndexError w0).
    { intros w0 Hm. cbn [GameEngine.notify]. unfold bind at 1.
      unfold on_model, zoom.
      rewrite (move_player_two c pid d v _ p0 p1) by (rewrite ?Hm; assumption).
      rewrite !decide_False by lia. now rewrite set_model_id. }
    split; [now apply Hraise|].
    intros pre suf E Hpre. rewrite post_unfold. rewrite E at 1.
    rewrite deliver_once by exact Hpre. unfold bind.
    now rewrite Hraise.
Qed.

Lemma player_move_unchecked_index_witness :
  players (model started_world)
    = Some [ {| player_id := 0; position := {| vx := 200; vy := 400 |}; speed := 70 |};
             {| player_id := 1; position := {| vx := 600; vy := 400 |}; speed := 100 |} ] /\
  (exists w',
     GameEngine.notify sample_const (EventManager.post 1 sample_const)
       (EventPlayerMove (-1) "up") started_world = Ok tt w' /\
     players (model w')
       = Some [ {| player_id := 0; position := {| vx := 200; vy := 400 |}; speed := 70 |};
                moved sample_const {| vx := 0; vy := -1 |}
                  {| player_id := 1; position := {| vx := 600; vy := 400 |};
                     speed := 100 |} ]) /\
  GameEngine.notify sample_const (EventManager.post 1 sample_const)
    (EventPlayerMove 2 "up") started_world = Raise IndexError started_world.
Proof.
  split; [reflexivity|].
  pose proof (player_move_unchecked_index sample_const 0 started_world
                {| player_id := 0; position := {| vx := 200; vy := 400 |}; speed := 70 |}
                {| player_id := 1; position := {| vx := 600; vy := 400 |}; speed := 100 |}
                "up" {| vx := 0; vy := -1 |}) as H.
  split.
  - destruct (proj1 (proj2 (H (-1)%Z eq_refl eq_refl eq_refl)) (or_intror eq_refl))
      as (w' & Hpl & E).
    exists w'. split; [exact E|exact Hpl].
  - apply (H 2%Z); [reflexivity|reflexivity|reflexivity|right; lia].
Defined.

(** ** Collision *)








(** ** Clamping *)

Lemma moved_in_arena c v p :
  fle 0 (fst (ARENA_SIZE c)) -> fle 0 (snd (ARENA_SIZE c)) ->
  in_arena c (moved c v p).
Proof.
  intros Hw Hh. unfold in_arena, moved. cbn [position set_position vx vy].
  split; apply clamp_bounds; assumption.
Qed.

(** C3: whatever the starting position, every [move_direction] call with a
    direction of the table returns, and leaves the player inside the arena:
    [0 <= x <= ARENA_SIZE[0]] and [0 <= y <= ARENA_SIZE[1]]. *)
Theorem moves_stay_in_arena c dirs p :
  (FPS c =? 0)%float = false ->
  fle 0 (fst (ARENA_SIZE c)) ->
  fle 0 (snd (ARENA_SIZE c)) ->
  Forall (fun d => is_Some (DIRECTION_TO_VEC2 c !! d)) dirs ->
  length (move_trace c dirs p) = length dirs /\
  Forall (in_arena c) (move_trace c dirs p).
Proof.
  intros HF Hw Hh Hd. revert p.
  induction Hd as [|d dirs [v Hv] _ IH]; intros p; [split; [reflexivity|constructor]|].
  cbn [move_trace]. rewrite (move_direction_eq c d v) by assumption.
  destruct (IH (moved c v p)) as [Hlen Hall]. split.
  - cbn [length]. now rewrite Hlen.
  - constructor; [now apply moved_in_arena|exact Hall].
Qed.

Lemma moves_stay_in_arena_witness :
  length (move_trace sample_const ["left"; "up"; "up"]
            {| player_id := 0; position := {| vx := -5; vy := 9000 |}; speed := 70 |})
    = 3%nat /\
  Forall (in_arena sample_const)
    (move_trace sample_const ["left"; "up"; "up"]
       {| player_id := 0; position := {| vx := -5; vy := 9000 |}; speed := 70 |}).
Proof.
  apply (moves_stay_in_arena sample_const ["left"; "up"; "up"]);
    [reflexivity|reflexivity|reflexivity|].
  repeat constructor; eexists; reflexivity.
Defined.

(** ** Swapping the roles *)

Lemma norm_index_nonneg n i :
  (0 <= i < Z.of_nat n)%Z -> norm_index n i = Some (Z.to_nat i).
Proof.
  intros H. unfold norm_index.
  assert (E1 : (i <? 0)%Z = false) by (apply Z.ltb_ge; lia).
  assert (E2 : (Z.of_nat n <=? i)%Z = false) by (apply Z.leb_gt; lia).
  rewrite E1. cbv zeta iota. now rewrite E1, E2.
Qed.

Lemma Player_init_ok {S} c pid (s : S) :
  (2 <= length (PLAYER_INIT_POSITION c))%nat ->
  (pid = 0 \/ pid = 1)%Z ->
  exists p, Player.init c pid s = Ok p s /\ player_id p = pid.
Proof.
  intros Hlen Hpid. unfold Player.init, bind, getitem.
  rewrite norm_index_nonneg by lia.
  destruct (lookup_lt_is_Some_2 (PLAYER_INIT_POSITION c) (Z.to_nat pid)) as [v ->];
    [lia|].
  eexists. split; reflexivity.
Qed.

Lemma setitem_pair_0 {S A} (a b x : A) (s : S) : setitem [a; b] 0 x s = Ok [x; b] s.
Proof. reflexivity. Qed.

Lemma setitem_pair_1 {S A} (a b x : A) (s : S) : setitem [a; b] 1 x s = Ok [a; x] s.
Proof. reflexivity. Qed.

Lemma bind_Ok {S A B} (m : M S A) (k : A -> M S B) s a s' :
  m s = Ok a s' -> bind m k s = k a s'.
Proof. intros H. unfold bind. now rewrite H. Qed.

Ltac mstep tac := erewrite bind_Ok by tac; cbv beta.

Lemma change_position_ok c g a b :
  (2 <= length (PLAYER_INIT_POSITION c))%nat ->
  roll g = Some [a; b] ->
  (a = 0 \/ a = 1)%Z -> (b = 0 \/ b = 1)%Z ->
  exists p0 p1,
    GameEngine.change_position c g =
      Ok tt (set_timer (GAME_LENGTH c) (set_players [p0; p1] (set_roll [b; a] g))) /\
    player_id p0 = b /\ player_id p1 = a.
Proof.
  intros Hlen Hroll Ha Hb.
  destruct (Player_init_ok c b (set_roll [b; a] g) Hlen Hb) as (p0 & E0 & I0).
  destruct (Player_init_ok c a (set_roll [b; a] g) Hlen Ha) as (p1 & E1 & I1).
  exists p0, p1. split; [|split; assumption].
  unfold GameEngine.change_position.
  mstep ltac:(unfold attr; rewrite Hroll; reflexivity).
  mstep ltac:(apply getitem_pair_1).
  mstep ltac:(apply getitem_pair_0).
  mstep ltac:(apply setitem_pair_0).
  mstep ltac:(reflexivity).
  mstep ltac:(apply setitem_pair_1).
  mstep ltac:(reflexivity).
  mstep ltac:(reflexivity).
  mstep ltac:(apply getitem_pair_0).
  mstep ltac:(exact E0).
  mstep ltac:(reflexivity).
  mstep ltac:(apply getitem_pair_1).
  mstep ltac:(exact E1).
  reflexivity.
Qed.

Lemma initialize_ok c g :
  (2 <= length (PLAYER_INIT_POSITION c))%nat ->
  exists p0 p1,
    GameEngine.initialize c g =
      Ok tt (set_players [p0; p1]
               (set_roll [0; 1]%Z
                  (set_state_machine
                     {| statestack := statestack (state_machine g)
                                        ++ [VInt (STATE_MENU c)] |} g))) /\
    player_id p0 = 0%Z /\ player_id p1 = 1%Z.
Proof.
  intros Hlen.
  set (g1 := set_roll [0; 1]%Z
               (set_state_machine
                  {| statestack := statestack (state_machine g)
                                     ++ [VInt (STATE_MENU c)] |} g)).
  destruct (Player_init_ok c 0%Z g1 Hlen) as (p0 & E0 & I0); [now left|].
  destruct (Player_init_ok c 1%Z g1 Hlen) as (p1 & E1 & I1); [now right|].
  exists p0, p1. split; [|split; assumption].
  unfold GameEngine.initialize.
  mstep ltac:(reflexivity).
  mstep ltac:(reflexivity).
  mstep ltac:(reflexivity).
  mstep ltac:(apply getitem_pair_0).
  mstep ltac:(exact E0).
  mstep ltac:(reflexivity).
  mstep ltac:(apply getitem_pair_1).
  mstep ltac:(exact E1).
  reflexivity.
Qed.

(** C9: on an engine whose [roll] is a permutation of 0 and 1,
    [change_position] returns with the two entries of [roll] exchanged, still
    a permutation of 0 and 1, and with [players[i].player_id = roll[i]];
    a second call gives [roll] its first value back. *)
Theorem change_position_involution c g a b :
  (2 <= length (PLAYER_INIT_POSITION c))%nat ->
  roll g = Some [a; b] ->
  [a; b] ≡ₚ [0; 1]%Z ->
  exists g1 g2 p0 p1 q0 q1,
    GameEngine.change_position c g = Ok tt g1 /\
    roll g1 = Some [b; a] /\ [b; a] ≡ₚ [0; 1]%Z /\
    players g1 = Some [p0; p1] /\ player_id p0 = b /\ player_id p1 = a /\
    GameEngine.change_position c g1 = Ok tt g2 /\
    roll g2 = roll g /\
    players g2 = Some [q0; q1] /\ player_id q0 = a /\ player_id q1 = b.
Proof.
  intros Hlen Hroll Hperm.
  assert (Hab : (a = 0 \/ a = 1)%Z /\ (b = 0 \/ b = 1)%Z).
  { apply Permutation_length_2 in Hperm. lia. }
  destruct Hab as [Ha Hb].
  destruct (change_position_ok c g a b Hlen Hroll Ha Hb) as (p0 & p1 & E1 & I0 & I1).
  destruct (change_position_ok c
              (set_timer (GAME_LENGTH c) (set_players [p0; p1] (set_roll [b; a] g)))
              b a Hlen eq_refl Hb Ha) as (q0 & q1 & E2 & J0 & J1).
  do 6 eexists. split; [exact E1|]. split; [reflexivity|].
  split; [now rewrite <- Hperm; apply Permutation_swap|].
  split; [reflexivity|]. split; [exact I0|]. split; [exact I1|].
  split; [exact E2|]. split; [now rewrite Hroll|].
  split; [reflexivity|]. split; assumption.
Qed.

Lemma change_position_involution_witness :
  exists g1 g2 p0 p1 q0 q1,
    GameEngine.change_position sample_const (model started_world) = Ok tt g1 /\
    roll g1 = Some [1; 0]%Z /\ [1; 0]%Z ≡ₚ [0; 1]%Z /\
    players g1 = Some [p0; p1] /\ player_id p0 = 1%Z /\ player_id p1 = 0%Z /\
    GameEngine.change_position sample_const g1 = Ok tt g2 /\
    roll g2 = roll (model started_world) /\
    players g2 = Some [q0; q1] /\ player_id q0 = 0%Z /\ player_id q1 = 1%Z.
Proof.
  apply (change_position_involution sample_const (model started_world) 0%Z 1%Z);
    [cbn; lia|reflexivity|reflexivity].
Defined.

(** ** Ticks in state PLAY *)

Lemma notify_tick_play c p w t :
  top (statestack (state_machine (model w))) = VInt (STATE_PLAY c) ->
  STATE_MENU c <> STATE_PLAY c ->
  timer (model w) = Some t ->
  GameEngine.notify c p EventEveryTick w =
  if (t - 1 =? 0)%Z
  then p EventChangePosition (set_model (set_timer (t - 1) (model w)) w)
  else Ok tt (set_model (set_timer (t - 1) (model w)) w).
Proof.
  intros Htop Hne Ht. rewrite notify_EveryTick. cbn zeta. rewrite Htop, Ht.
  cbn [value_eqb].
  replace (STATE_PLAY c =? STATE_MENU c)%Z with false
    by (symmetry; apply Z.eqb_neq; congruence).
  now rewrite Z.eqb_refl.
Qed.

Lemma post_tick_play n c w t :
  model_count (listeners w) = 1%nat ->
  top (statestack (state_machine (model w))) = VInt (STATE_PLAY c) ->
  STATE_MENU c <> STATE_PLAY c ->
  timer (model w) = Some t ->
  t <> 1%Z ->
  exists w',
    EventManager.post (S n) c EventEveryTick w = Ok tt w' /\
    (model w' = set_timer (t - 1) (model w) /\
     posted w' = posted w ++ [EventEveryTick]) /\
    listeners w' = listeners w.
Proof.
  intros Hc Htop Hne Ht Ht1.
  apply (post_once_lift n c EventEveryTick w
           (fun g po => g = set_timer (t - 1) (model w)
                        /\ po = posted w ++ [EventEveryTick]) Hc).
  intros w0 Hm Hpo Hl.
  rewrite (notify_tick_play c _ w0 t) by (rewrite ?Hm; assumption).
  replace (t - 1 =? 0)%Z with false by (symmetry; apply Z.eqb_neq; lia).
  eexists. split; [reflexivity|]. cbn. rewrite Hm. auto.
Qed.

Lemma post_tick_last n c w g' :
  model_count (listeners w) = 1%nat ->
  top (statestack (state_machine (model w))) = VInt (STATE_PLAY c) ->
  STATE_MENU c <> STATE_PLAY c ->
  timer (model w) = Some 1%Z ->
  GameEngine.change_position c (set_timer 0 (model w)) = Ok tt g' ->
  exists w',
    EventManager.post (S (S n)) c EventEveryTick w = Ok tt w' /\
    (model w' = g' /\
     posted w' = posted w ++ [EventEveryTick; EventChangePosition]) /\
    listeners w' = listeners w.
Proof.
  intros Hc Htop Hne Ht Hcp.
  apply (post_once_lift (S n) c EventEveryTick w
           (fun g po => g = g'
                        /\ po = posted w ++ [EventEveryTick; EventChangePosition]) Hc).
  intros w0 Hm Hpo Hl.
  rewrite (notify_tick_play c _ w0 1%Z) by (rewrite ?Hm; assumption).
  change (1 - 1 =? 0)%Z with true. cbv iota.
  rewrite (post_once n c EventChangePosition (GameEngine.change_position c) _ g');
    [|reflexivity|cbn [listeners set_model]; now rewrite Hl
     |cbn [model set_model]; now rewrite Hm].
  eexists. split; [reflexivity|]. cbn. rewrite Hpo, <- app_assoc. auto.
Qed.

Lemma ticks_round n c k : forall w g',
  model_count (listeners w) = 1%nat ->
  top (statestack (state_machine (model w))) = VInt (STATE_PLAY c) ->
  STATE_MENU c <> STATE_PLAY c ->
  timer (model w) = Some (Z.of_nat (S k)) ->
  GameEngine.change_position c (set_timer 0 (model w)) = Ok tt g' ->
  exists w',
    ticks (S (S n)) c (S k) w = Ok tt w' /\
    model w' = g' /\
    posted w' = posted w ++ repeat EventEveryTick (S k) ++ [EventChangePosition] /\
    listeners w' = listeners w.
Proof.
  induction k as [|k IH]; intros w g' Hc Htop Hne Ht Hcp.
  - destruct (post_tick_last n c w g' Hc Htop Hne Ht Hcp)
      as (w' & E & [Hm Hpo] & Hl).
    exists w'. cbn [ticks]. unfold bind. rewrite E. cbn [ret].
    repeat split; assumption.
  - destruct (post_tick_play (S n) c w _ Hc Htop Hne Ht) as (w1 & E & [Hm Hpo] & Hl);
      [lia|].
    destruct (IH w1 g') as (w' & E' & Hm' & Hpo' & Hl'); try assumption.
    + now rewrite Hl.
    + now rewrite Hm.
    + rewrite Hm. cbn [timer set_timer]. f_equal. lia.
    + now rewrite Hm.
    + exists w'. split; [|split; [exact Hm'|split]].
      * change (ticks (S (S n)) c (S (S k)) w)
          with ((EventManager.post (S (S n)) c EventEveryTick ;;;
                 ticks (S (S n)) c (S k)) w).
        unfold bind at 1. now rewrite E.
      * rewrite Hpo', Hpo, <- app_assoc. reflexivity.
      * congruence.
Qed.

(** C4: with the engine registered once, the state PLAY on top, the timer at
    [T > 0] and the roles assigned, [T] posted ticks count the timer down to
    zero; the last one posts [ChangePosition], the only one posted, after
    which the timer is the game length again and the two entries of [roll]
    are exchanged. *)
Theorem timer_driven_swap c n w T a b :
  model_count (listeners w) = 1%nat ->
  top (statestack (state_machine (model w))) = VInt (STATE_PLAY c) ->
  STATE_MENU c <> STATE_PLAY c ->
  (2 <= length (PLAYER_INIT_POSITION c))%nat ->
  roll (model w) = Some [a; b] ->
  [a; b] ≡ₚ [0; 1]%Z ->
  timer (model w) = Some T ->
  (0 < T)%Z ->
  exists w',
    ticks (S (S n)) c (Z.to_nat T) w = Ok tt w' /\
    posted w' = posted w ++ repeat EventEveryTick (Z.to_nat T) ++ [EventChangePosition] /\
    timer (model w') = Some (GAME_LENGTH c) /\
    roll (model w') = Some [b; a] /\
    top (statestack (state_machine (model w'))) = VInt (STATE_PLAY c).
Proof.
  intros Hc Htop Hne Hlen Hroll Hperm Ht HT.
  destruct (Z.to_nat T) as [|k] eqn:Ek; [lia|].
  assert (Hab : (a = 0 \/ a = 1)%Z /\ (b = 0 \/ b = 1)%Z).
  { apply Permutation_length_2 in Hperm. lia. }
  destruct Hab as [Ha Hb].
  destruct (change_position_ok c (set_timer 0 (model w)) a b Hlen Hroll Ha Hb)
    as (p0 & p1 & Ecp & _).
  assert (Ht' : timer (model w) = Some (Z.of_nat (S k)))
    by (rewrite Ht; f_equal; lia).
  destruct (ticks_round n c k w _ Hc Htop Hne Ht' Ecp)
    as (w' & E & Hm & Hpo & Hl).
  exists w'. split; [exact E|]. split; [exact Hpo|]. rewrite Hm.
  repeat split. exact Htop.
Qed.

Lemma timer_driven_swap_witness :
  exists w',
    ticks 2 sample_const (Z.to_nat (GAME_LENGTH sample_const)) playing_world = Ok tt w' /\
    posted w' = posted playing_world
                ++ repeat EventEveryTick (Z.to_nat (GAME_LENGTH sample_const))
                ++ [EventChangePosition] /\
    timer (model w') = Some (GAME_LENGTH sample_const) /\
    roll (model w') = Some [1; 0]%Z /\
    top (statestack (state_machine (model w'))) = VInt (STATE_PLAY sample_const).
Proof.
  apply (timer_driven_swap sample_const 0 playing_world
           (GAME_LENGTH sample_const) 0%Z 1%Z);
    [reflexivity|reflexivity|discriminate|cbn; lia|reflexivity|reflexivity
    |reflexivity|reflexivity].
Defined.

(** Three ticks from a timer at 3, run on the model. *)
Example three_ticks_swap :
  exists w',
    ticks 2 sample_const 3
      (set_model (set_timer 3 (model playing_world)) playing_world) = Ok tt w' /\
    posted w' = posted playing_world
                ++ [EventEveryTick; EventEveryTick; EventEveryTick; EventChangePosition] /\
    timer (model w') = Some 1800%Z /\ roll (model w') = Some [1; 0]%Z.
Proof. eexists. split; [vm_compute; reflexivity|]. repeat split. Qed.

(** Two players standing closer than two radii: the next move ends the game. *)
Example close_players_quit :
  exists w',
    EventManager.post 2 sample_const (EventPlayerMove 0 "right")
      (set_model
         (set_players
            [ {| player_id := 0; position := {| vx := 200; vy := 400 |}; speed := 70 |};
              {| player_id := 1; position := {| vx := 300; vy := 400 |}; speed := 100 |} ]
            (model started_world)) started_world) = Ok tt w' /\
    posted w' = [EventInitialize; EventPlayerMove 0 "right"; EventQuit] /\
    running (model w') = Some false.
Proof. eexists. split; [vm_compute; reflexivity|]. split; reflexivity. Qed.

(** * Further properties of the engine and the event manager *)

(** ** Every event is one step of the engine *)

Lemma notify_step c p ev w :
  exists m, engine_step c m /\
    match m (model w) with
    | Ok _ g =>
        GameEngine.notify c p ev w = Ok tt (set_model g w) \/
        (exists e, GameEngine.notify c p ev w = Raise e (set_model g w)) \/
        (exists e', nested ev e' /\
                    GameEngine.notify c p ev w = p e' (set_model g w))
    | Raise e g => GameEngine.notify c p ev w = Raise e (set_model g w)
    | OutOfFuel => False
    end.
Proof.
  destruct ev as [| | | | |s| | | |pid d].
  - exists (ret tt). split; [constructor|]. left. cbn. now rewrite set_model_id.
  - exists (GameEngine.initialize c). split; [constructor|].
    cbn [GameEngine.notify]. unfold on_model, zoom.
    pose proof (returns_initialize c (model w)) as Hr.
    destruct (GameEngine.initialize c (model w)) as [[] g|e g|]; auto.
  - exists (modify (set_running false)). split; [constructor|]. left. reflexivity.
  - exists (on_sm (StateMachine.push (VInt (STATE_STOP c))) ;;; ret tt).
    split; [constructor; right; left; reflexivity|]. left. reflexivity.
  - exists (on_sm StateMachine.pop ;;; ret tt). split; [constructor|].
    unfold bind. rewrite on_sm_pop. left. apply notify_Continue.
  - destruct (value_eqb s (VInt (STATE_POP c))) eqn:E.
    + exists (on_sm StateMachine.pop ;;; ret tt). split; [constructor|].
      unfold bind. rewrite on_sm_pop. cbn [ret].
      rewrite notify_StateChange_POP by assumption. cbn zeta.
      destruct (is_None _); [right; right; exists EventQuit; split; [exact I|reflexivity]
                            |left; reflexivity].
    + exists (on_sm (StateMachine.push s) ;;; ret tt).
      split; [constructor; right; right; exact E|]. left.
      cbn [GameEngine.notify]. rewrite E. reflexivity.
  - rewrite notify_EveryTick. cbn zeta.
    destruct (value_eqb _ (VInt (STATE_MENU c))).
    { exists (ret tt). split; [constructor|]. left. cbn. now rewrite set_model_id. }
    destruct (value_eqb _ (VInt (STATE_PLAY c))).
    2:{ exists (ret tt). split; [constructor|]. left. cbn. now rewrite set_model_id. }
    exists count_down. split; [constructor|].
    unfold count_down, bind, attr, modify.
    destruct (timer (model w)) as [t|]; [|now rewrite set_model_id].
    destruct (t - 1 =? 0)%Z; [|left; reflexivity].
    right; right. exists EventChangePosition. split; [exact I|reflexivity].
  - exists (on_sm (StateMachine.push (VInt (STATE_ENDGAME c))) ;;; ret tt).
    split; [constructor; left; reflexivity|]. left. reflexivity.
  - exists (GameEngine.change_position c). split; [constructor|].
    cbn [GameEngine.notify]. unfold on_model, zoom.
    pose proof (returns_change_position c (model w)) as Hr.
    destruct (GameEngine.change_position c (model w)) as [[] g|e g|]; auto.
  - exists (GameEngine.move_player c pid d). split; [constructor|].
    assert (En : GameEngine.notify c p (EventPlayerMove pid d) w =
      match GameEngine.move_player c pid d (model w) with
      | Ok _ g => GameEngine.check_collision c p (set_model g w)
      | Raise e g => Raise e (set_model g w)
      | OutOfFuel => OutOfFuel
      end).
    { cbn [GameEngine.notify]. unfold bind, on_model, zoom.
      destruct (GameEngine.move_player c pid d (model w)); reflexivity. }
    rewrite En. clear En.
    pose proof (returns_move_player c pid d (model w)) as Hr.
    destruct (GameEngine.move_player c pid d (model w)) as [[] g|e g|];
      [|reflexivity|congruence].
    unfold GameEngine.check_collision, bind, on_model, zoom, attr.
    cbn [model set_model].
    destruct (players g) as [ps|]; [|right; left; eexists; reflexivity].
    unfold getitem, ret, raise.
    destruct (norm_index (length ps) 0) as [j0|]; [|right; left; eexists; reflexivity].
    destruct (ps !! j0) as [p0|]; [|right; left; eexists; reflexivity].
    destruct (norm_index (length ps) 1) as [j1|]; [|right; left; eexists; reflexivity].
    destruct (ps !! j1) as [p1|]; [|right; left; eexists; reflexivity].
    cbv beta iota. rewrite distance_cases.
    destruct (distance_overflows _ _); [right; left; eexists; reflexivity|].
    destruct (_ <? _)%float; [|left; reflexivity].
    right; right. exists EventQuit. split; [exact I|reflexivity].
Qed.

Lemma notify_inv c p ev w (Inv : GameEngine -> Prop) :
  (forall m, engine_step c m -> keeps Inv m) ->
  (forall e' w0, nested ev e' -> Inv (model w0) ->
     after (fun w' => Inv (model w')) (p e' w0)) ->
  Inv (model w) ->
  after (fun w' => Inv (model w')) (GameEngine.notify c p ev w).
Proof.
  intros Hk Hp Hw. destruct (notify_step c p ev w) as (m & Hm & H).
  specialize (Hk m Hm (model w) Hw).
  destruct (m (model w)) as [[] g|e g|]; [|now rewrite H|destruct H].
  destruct H as [->|[[e ->]|(e' & Hn & ->)]]; [exact Hk|exact Hk|].
  now apply Hp.
Qed.

Lemma deliver_inv c p ls ev w (Inv : GameEngine -> Prop) :
  (forall m, engine_step c m -> keeps Inv m) ->
  (forall e' w0, nested ev e' -> Inv (model w0) ->
     after (fun w' => Inv (model w')) (p e' w0)) ->
  Inv (model w) ->
  after (fun w' => Inv (model w')) (EventManager.deliver c p ls ev w).
Proof.
  intros Hk Hp. revert w. induction ls as [|l ls IH]; intros w Hw; [exact Hw|].
  cbn [EventManager.deliver]. unfold bind, modify.
  assert (Hl : after (fun w' => Inv (model w'))
                 (EventManager.notify c p l ev (log_notify l ev w))).
  { destruct l; [now apply notify_inv|exact Hw]. }
  destruct (EventManager.notify c p l ev _) as [[] w1|e w1|]; cbn in Hl;
    [now apply IH|exact Hl|exact I].
Qed.

(** A property of the engine that every step keeps holds after [post],
    whatever the event, the listeners and the way [post] ends. *)
Lemma post_inv c (Inv : GameEngine -> Prop) :
  (forall m, engine_step c m -> keeps Inv m) ->
  forall n ev w, Inv (model w) ->
    after (fun w' => Inv (model w')) (EventManager.post n c ev w).
Proof.
  intros Hk. induction n as [|n IH]; intros ev w Hw; [exact I|].
  rewrite post_unfold. apply deliver_inv; [assumption| |exact Hw].
  intros e' w0 _. apply IH.
Qed.

(** ** Rules for [triple] *)

Lemma triple_bind {S A B} (P : S -> Prop) (m : M S A) (k : A -> M S B) Q' Q E :
  triple P m Q' E -> (forall a, triple (Q' a) (k a) Q E) ->
  triple P (bind m k) Q E.
Proof.
  intros Hm Hk s Hs. unfold bind. specialize (Hm s Hs).
  destruct (m s) as [a s'|e s'|]; [exact (Hk a s' Hm)|exact Hm|exact I].
Qed.

Lemma triple_post {S A} (P : S -> Prop) (m : M S A) Q' Q E :
  triple P m Q' E -> (forall a s, Q' a s -> Q a s) -> triple P m Q E.
Proof.
  intros Hm HQ s Hs. specialize (Hm s Hs). destruct (m s); auto.
Qed.

Lemma sp_ret {S A} (P : S -> Prop) (a : A) E :
  triple P (ret a) (fun x s => P s /\ x = a) E.
Proof. intros s Hs. split; [exact Hs|reflexivity]. Qed.

Lemma sp_raise {S A} (P : S -> Prop) e (Q : A -> S -> Prop) (E : S -> Prop) :
  (forall s, P s -> E s) -> triple P (raise e) Q E.
Proof. intros H s Hs. exact (H s Hs). Qed.

Lemma sp_modify {S} (P : S -> Prop) (h : S -> S) E :
  triple P (modify h) (fun _ s' => exists s, P s /\ s' = h s) E.
Proof. intros s Hs. exists s. split; [exact Hs|reflexivity]. Qed.

Lemma sp_attr {S A} (P : S -> Prop) (f : S -> option A) (E : S -> Prop) :
  (forall s, P s -> E s) ->
  triple P (attr f) (fun a s => P s /\ f s = Some a) E.
Proof.
  intros H s Hs. unfold attr. destruct (f s) eqn:Ef; [split; auto|exact (H s Hs)].
Qed.

Lemma sp_getitem {S A} (P : S -> Prop) (l : list A) i (E : S -> Prop) :
  (forall s, P s -> E s) ->
  triple P (getitem l i)
    (fun a s => P s /\ exists j, norm_index (length l) i = Some j /\ l !! j = Some a) E.
Proof.
  intros H s Hs. unfold getitem.
  destruct (norm_index (length l) i) as [j|]; [|exact (H s Hs)].
  destruct (l !! j) as [a|] eqn:El; [|exact (H s Hs)].
  split; [exact Hs|]. exists j. split; [reflexivity|exact El].
Qed.

Lemma sp_setitem {S A} (P : S -> Prop) (l : list A) i x (E : S -> Prop) :
  (forall s, P s -> E s) ->
  triple P (setitem l i x)
    (fun l' s => P s /\ exists j, norm_index (length l) i = Some j /\ l' = <[j:=x]> l) E.
Proof.
  intros H s Hs. unfold setitem.
  destruct (norm_index (length l) i) as [j|]; [|exact (H s Hs)].
  split; [exact Hs|]. exists j. split; reflexivity.
Qed.

(** [Player(pid)] returns the player of that id, at the table's position
    for it and with the speed of its role, or raises; it changes no state. *)
Lemma sp_Player_init {S} (P : S -> Prop) c pid (E : S -> Prop) :
  (forall s, P s -> E s) ->
  triple P (Player.init c pid)
    (fun p s => P s /\ exists j v,
       norm_index (length (PLAYER_INIT_POSITION c)) pid = Some j /\
       PLAYER_INIT_POSITION c !! j = Some v /\
       p = {| player_id := pid; position := v; speed := role_speed c pid |}) E.
Proof.
  intros H. unfold Player.init.
  eapply triple_bind; [apply sp_getitem, H|]. intros v.
  eapply triple_post; [apply sp_ret|].
  intros p s [[Hs (j & Hj & Hv)] ->]. split; [exact Hs|]. exists j, v. auto.
Qed.

Lemma triple_zoom {S T A} (P : S -> Prop) (J : T -> Prop) proj upd (m : M T A)
    Q' E' (Q : A -> S -> Prop) (E : S -> Prop) :
  triple J m Q' E' ->
  (forall s, P s -> J (proj s)) ->
  (forall s a t, P s -> Q' a t -> Q a (upd t s)) ->
  (forall s t, P s -> E' t -> E (upd t s)) ->
  triple P (zoom proj upd m) Q E.
Proof.
  intros Hm HJ HQ HE s Hs. unfold zoom. specialize (Hm (proj s) (HJ s Hs)).
  destruct (m (proj s)) as [a t|e t|]; [eapply HQ|eapply HE|exact I]; eauto.
Qed.

Lemma sp_push (P : GameEngine -> Prop) v E :
  triple P (on_sm (StateMachine.push v))
    (fun _ g' => exists g, P g /\
       g' = set_state_machine
              {| statestack := statestack (state_machine g) ++ [v] |} g) E.
Proof. intros g Hg. exists g. split; [exact Hg|reflexivity]. Qed.

Lemma sp_pop (P : GameEngine -> Prop) E :
  triple P (on_sm StateMachine.pop)
    (fun _ g' => exists g, P g /\
       g' = set_state_machine
              {| statestack := removelast (statestack (state_machine g)) |} g) E.
Proof. intros g Hg. rewrite on_sm_pop. exists g. split; [exact Hg|reflexivity]. Qed.

(** Chain the rules along a sequence of binds; what is left are the facts
    to check where something may raise and at the end. *)
Ltac sp_rule :=
  first
    [ apply sp_modify | apply sp_ret | apply sp_push | apply sp_pop
    | apply sp_attr | apply sp_getitem | apply sp_setitem
    | apply sp_Player_init | apply sp_raise ].

Ltac sp_step :=
  first
    [ sp_rule
    | eapply triple_bind; [|intros ?]
    | eapply triple_post; [sp_rule|] ].

Ltac sp_chain := repeat sp_step.

(** Unpack the facts a chain has gathered about the states it went through. *)
Ltac sp_facts :=
  cbv beta in *;
  repeat match goal with
         | H : _ /\ _ |- _ => destruct H
         | H : exists _, _ |- _ => destruct H
         end; subst.

(** ** The POP sentinel never reaches the stack *)

Lemma Forall_removelast {A} (P : A -> Prop) l : Forall P l -> Forall P (removelast l).
Proof.
  intros H. rewrite removelast_firstn_len. now apply Forall_take.
Qed.

Lemma pushes_not_POP c s :
  STATE_ENDGAME c <> STATE_POP c -> STATE_STOP c <> STATE_POP c ->
  pushes c s -> s <> VInt (STATE_POP c).
Proof.
  intros He Hs [->|[->|H]]; [congruence|congruence|].
  intros ->. now rewrite value_eqb_refl in H.
Qed.

Lemma pop_free_steps c :
  STATE_MENU c <> STATE_POP c ->
  STATE_ENDGAME c <> STATE_POP c ->
  STATE_STOP c <> STATE_POP c ->
  forall m, engine_step c m -> keeps (pop_free c) m.
Proof.
  intros Hm He Hs m Hstep. unfold keeps.
  destruct Hstep as [| | |s Hpush| | |pid d|].
  - eapply triple_post; [apply sp_ret|]. now intros a g [H _].
  - unfold GameEngine.initialize. sp_chain; intros; sp_facts;
      unfold pop_free in *; cbn in *;
      try (apply Forall_app; split; [assumption|repeat constructor; congruence]).
  - unfold count_down. sp_chain; intros; sp_facts; assumption.
  - sp_chain; intros; sp_facts. unfold pop_free in *. cbn.
    apply Forall_app. split; [assumption|].
    repeat constructor. now apply pushes_not_POP.
  - sp_chain; intros; sp_facts. unfold pop_free in *. cbn.
    now apply Forall_removelast.
  - eapply triple_post; [apply sp_modify|]. intros; sp_facts. assumption.
  - unfold GameEngine.move_player. sp_chain; intros; sp_facts; try assumption.
    eapply triple_zoom with (J := fun _ => True) (Q' := fun _ _ => True)
                            (E' := fun _ => True);
      [|auto|intros; sp_facts; assumption..].
    intros p _. generalize (Player.move_direction c d p). now intros [].
  - unfold GameEngine.change_position. sp_chain; intros; sp_facts; assumption.
Qed.

(** With two units of fuel or more, [post] ends in a store: it returns or
    raises. *)
Lemma post_ends n c ev w (P : World -> Prop) :
  after P (EventManager.post (S (S n)) c ev w) ->
  exists w',
    (EventManager.post (S (S n)) c ev w = Ok tt w' \/
     exists e, EventManager.post (S (S n)) c ev w = Raise e w') /\ P w'.
Proof.
  intros H. pose proof (post_returns n c ev w) as Hr.
  destruct (EventManager.post (S (S n)) c ev w) as [[] w'|e w'|];
    [exists w'; split; [now left|exact H]
    |exists w'; split; [right; now exists e|exact H]
    |congruence].
Qed.

(** X1: the POP sentinel is never pushed.  When [MENU], [ENDGAME] and [STOP]
    differ from [POP] and no item of the state stack is [POP], no item is
    [POP] after [post], whatever the event and the listeners, and whether
    [post] returns or raises. *)
Theorem POP_never_on_stack c n ev w :
  STATE_MENU c <> STATE_POP c ->
  STATE_ENDGAME c <> STATE_POP c ->
  STATE_STOP c <> STATE_POP c ->
  pop_free c (model w) ->
  exists w',
    (EventManager.post (S (S n)) c ev w = Ok tt w' \/
     exists e, EventManager.post (S (S n)) c ev w = Raise e w') /\
    pop_free c (model w').
Proof.
  intros Hm He Hs Hw. apply (post_ends n c ev w (fun w' => pop_free c (model w'))).
  apply post_inv; [now apply pop_free_steps|exact Hw].
Qed.

Lemma POP_never_on_stack_witness :
  exists w',
    (EventManager.post 2 sample_const (EventStateChange (VInt 0)) started_world
       = Ok tt w' \/
     exists e,
       EventManager.post 2 sample_const (EventStateChange (VInt 0)) started_world
         = Raise e w') /\
    pop_free sample_const (model w').
Proof.
  apply (POP_never_on_stack sample_const 0 (EventStateChange (VInt 0)) started_world);
    [discriminate|discriminate|discriminate|].
  repeat constructor. discriminate.
Defined.

(** ** Moving keeps the player's id and speed *)

Lemma move_direction_cases c d p :
  (exists v, DIRECTION_TO_VEC2 c !! d = Some v /\ (FPS c =? 0)%float = false /\
             Player.move_direction c d p = Ok tt (moved c v p)) \/
  ((FPS c =? 0)%float = true /\
   Player.move_direction c d p = Raise ZeroDivisionError p) \/
  ((FPS c =? 0)%float = false /\ DIRECTION_TO_VEC2 c !! d = None /\
   Player.move_direction c d p = Raise KeyError p).
Proof.
  unfold Player.move_direction, bind, get, truediv, dict_getitem.
  destruct ((FPS c =? 0)%float) eqn:EF; [right; left; split; reflexivity|].
  cbn. destruct (DIRECTION_TO_VEC2 c !! d) as [v|] eqn:Ed.
  - left. exists v. repeat split; reflexivity.
  - right; right. repeat split; reflexivity.
Qed.

Lemma norm_index_lt n i j : norm_index n i = Some j -> (j < n)%nat.
Proof.
  unfold norm_index. cbv zeta.
  set (k := if (i <? 0)%Z then (i + Z.of_nat n)%Z else i).
  destruct (Z.ltb_spec k 0); cbn [orb]; [discriminate|].
  destruct (Z.leb_spec (Z.of_nat n) k); [discriminate|].
  intros [= <-]. lia.
Qed.

Lemma set_players_same g ps : players g = Some ps -> set_players ps g = g.
Proof. destruct g; cbn; intros ->; reflexivity. Qed.

Lemma move_player_cases c pid d g :
  (players g = None /\ GameEngine.move_player c pid d g = Raise AttributeError g) \/
  (exists ps, players g = Some ps /\ norm_index (length ps) pid = None /\
              GameEngine.move_player c pid d g = Raise IndexError g) \/
  (exists ps j p, players g = Some ps /\ norm_index (length ps) pid = Some j /\
     ps !! j = Some p /\
     ((exists v, DIRECTION_TO_VEC2 c !! d = Some v /\ (FPS c =? 0)%float = false /\
                 GameEngine.move_player c pid d g
                   = Ok tt (set_players (<[j:=moved c v p]> ps) g)) \/
      (exists e, (e = ZeroDivisionError \/ e = KeyError) /\
                 GameEngine.move_player c pid d g = Raise e g))).
Proof.
  unfold GameEngine.move_player, bind, attr.
  destruct (players g) as [ps|] eqn:Ep; [|left; split; reflexivity].
  right. unfold getitem, list_store.
  destruct (norm_index (length ps) pid) as [j|] eqn:Ej.
  2:{ left. exists ps. repeat (split; try reflexivity); assumption. }
  destruct (ps !! j) as [p|] eqn:El.
  2:{ apply norm_index_lt in Ej. apply lookup_ge_None in El. lia. }
  right. exists ps, j, p. repeat (split; try reflexivity; try assumption).
  unfold ret, zoom.
  destruct (move_direction_cases c d p) as [(v & Hv & HF & ->)|[[HF ->]|(HF & Hd & ->)]].
  - left. exists v. repeat split; assumption.
  - right. exists ZeroDivisionError. split; [now left|].
    now rewrite list_insert_id, set_players_same.
  - right. exists KeyError. split; [now right|].
    now rewrite list_insert_id, set_players_same.
Qed.

(** ** Roles and players stay consistent *)

Lemma Player_init_spec {S} c pid v (s : S) :
  (0 <= pid)%Z ->
  PLAYER_INIT_POSITION c !! Z.to_nat pid = Some v ->
  Player.init c pid s = Ok (new_player c pid v) s.
Proof.
  intros Hpid Hv. unfold Player.init, bind, getitem.
  rewrite norm_index_nonneg, Hv; [reflexivity|].
  apply lookup_lt_Some in Hv. lia.
Qed.

Lemma initialize_spec c g v0 v1 :
  PLAYER_INIT_POSITION c !! 0%nat = Some v0 ->
  PLAYER_INIT_POSITION c !! 1%nat = Some v1 ->
  GameEngine.initialize c g =
    Ok tt (set_players [new_player c 0 v0; new_player c 1 v1]
             (set_roll [0; 1]%Z
                (set_state_machine
                   {| statestack := statestack (state_machine g)
                                      ++ [VInt (STATE_MENU c)] |} g))).
Proof.
  intros H0 H1. unfold GameEngine.initialize.
  mstep ltac:(reflexivity).
  mstep ltac:(reflexivity).
  mstep ltac:(reflexivity).
  mstep ltac:(apply getitem_pair_0).
  mstep ltac:(apply (Player_init_spec c 0 v0); [lia|exact H0]).
  mstep ltac:(reflexivity).
  mstep ltac:(apply getitem_pair_1).
  mstep ltac:(apply (Player_init_spec c 1 v1); [lia|exact H1]).
  reflexivity.
Qed.

Lemma change_position_spec c g a b va vb :
  roll g = Some [a; b] ->
  (0 <= a)%Z -> (0 <= b)%Z ->
  PLAYER_INIT_POSITION c !! Z.to_nat a = Some va ->
  PLAYER_INIT_POSITION c !! Z.to_nat b = Some vb ->
  GameEngine.change_position c g =
    Ok tt (set_timer (GAME_LENGTH c)
             (set_players [new_player c b vb; new_player c a va]
                (set_roll [b; a] g))).
Proof.
  intros Hroll Ha Hb Hva Hvb. unfold GameEngine.change_position.
  mstep ltac:(unfold attr; rewrite Hroll; reflexivity).
  mstep ltac:(apply getitem_pair_1).
  mstep ltac:(apply getitem_pair_0).
  mstep ltac:(apply setitem_pair_0).
  mstep ltac:(reflexivity).
  mstep ltac:(apply setitem_pair_1).
  mstep ltac:(reflexivity).
  mstep ltac:(reflexivity).
  mstep ltac:(apply getitem_pair_0).
  mstep ltac:(apply (Player_init_spec c b vb); assumption).
  mstep ltac:(reflexivity).
  mstep ltac:(apply getitem_pair_1).
  mstep ltac:(apply (Player_init_spec c a va); assumption).
  reflexivity.
Qed.

Lemma roles_ok_steps c :
  (2 <= length (PLAYER_INIT_POSITION c))%nat ->
  forall m, engine_step c m -> keeps (roles_ok c) m.
Proof.
  intros Hlen m Hstep.
  destruct (lookup_lt_is_Some_2 (PLAYER_INIT_POSITION c) 0) as [v0 H0]; [lia|].
  destruct (lookup_lt_is_Some_2 (PLAYER_INIT_POSITION c) 1) as [v1 H1]; [lia|].
  destruct Hstep as [| | |s Hpush| | |pid d|]; intros g Hg.
  - exact Hg.
  - rewrite (initialize_spec c g v0 v1 H0 H1). right.
    exists 0%Z, 1%Z, (new_player c 0 v0), (new_player c 1 v1).
    repeat split; reflexivity.
  - unfold count_down, bind, attr, modify. destruct (timer g); exact Hg.
  - exact Hg.
  - unfold bind. rewrite on_sm_pop. exact Hg.
  - exact Hg.
  - destruct (move_player_cases c pid d g)
      as [[_ ->]|[(ps & _ & _ & ->)|(ps & j & p & Hps & Hj & Hp & H)]];
      [exact Hg|exact Hg|].
    destruct H as [(v & _ & _ & ->)|(e & _ & ->)]; [|exact Hg].
    destruct Hg as [[_ Hn]|(a & b & p0 & p1 & Hr & Hperm & Hpl & I0 & I1 & S0 & S1)];
      [congruence|].
    rewrite Hpl in Hps. inversion Hps; subst ps. apply norm_index_lt in Hj.
    right. destruct j as [|[|j]]; [| |cbn in Hj; lia]; inversion Hp; subst p.
    + exists a, b, (moved c v p0), p1. repeat split; assumption.
    + exists a, b, p0, (moved c v p1). repeat split; assumption.
  - destruct Hg as [[Hr Hn]|(a & b & p0 & p1 & Hr & Hperm & Hpl & _)].
    + unfold GameEngine.change_position, bind, attr. rewrite Hr. now left.
    + assert (Hab : (a = 0 /\ b = 1)%Z \/ (a = 1 /\ b = 0)%Z).
      { apply Permutation_length_2 in Hperm. lia. }
      destruct Hab as [[-> ->]|[-> ->]].
      * rewrite (change_position_spec c g 0 1 v0 v1) by (assumption || lia).
        right. exists 1%Z, 0%Z, (new_player c 1 v1), (new_player c 0 v0).
        repeat split; try reflexivity. apply Permutation_swap.
      * rewrite (change_position_spec c g 1 0 v1 v0) by (assumption || lia).
        right. exists 0%Z, 1%Z, (new_player c 0 v0), (new_player c 1 v1).
        repeat split; reflexivity.
Qed.

(** X2: once the roles are assigned they stay consistent.  When the position
    table has its two entries and [roll] is a permutation of 0 and 1 with
    [players[i]] the player of id [roll[i]] and of that id's speed (or nothing
    is assigned yet), the same holds after [post], whatever the event and the
    listeners, and whether [post] returns or raises. *)
Theorem roles_stay_consistent c n ev w :
  (2 <= length (PLAYER_INIT_POSITION c))%nat ->
  roles_ok c (model w) ->
  exists w',
    (EventManager.post (S (S n)) c ev w = Ok tt w' \/
     exists e, EventManager.post (S (S n)) c ev w = Raise e w') /\
    roles_ok c (model w').
Proof.
  intros Hlen Hw. apply (post_ends n c ev w (fun w' => roles_ok c (model w'))).
  apply post_inv; [now apply roles_ok_steps|exact Hw].
Qed.

Lemma roles_stay_consistent_witness :
  exists w',
    (EventManager.post 2 sample_const EventChangePosition started_world = Ok tt w' \/
     exists e,
       EventManager.post 2 sample_const EventChangePosition started_world
         = Raise e w') /\
    roles_ok sample_const (model w').
Proof.
  apply (roles_stay_consistent sample_const 0 EventChangePosition started_world);
    [cbn; lia|].
  right. do 4 eexists. repeat split; reflexivity.
Defined.

(** ** Players stay inside the arena *)

Lemma new_player_in_arena c pid j v :
  Forall (vec_in_arena c) (PLAYER_INIT_POSITION c) ->
  PLAYER_INIT_POSITION c !! j = Some v ->
  in_arena c {| player_id := pid; position := v; speed := role_speed c pid |}.
Proof.
  intros Hall Hv. rewrite Forall_lookup in Hall. exact (Hall j v Hv).
Qed.

Lemma all_in_arena_steps c :
  fle 0 (fst (ARENA_SIZE c)) ->
  fle 0 (snd (ARENA_SIZE c)) ->
  Forall (vec_in_arena c) (PLAYER_INIT_POSITION c) ->
  forall m, engine_step c m -> keeps (all_in_arena c) m.
Proof.
  intros Hw Hh Htab m Hstep. unfold keeps.
  destruct Hstep as [| | |s Hpush| | |pid d|].
  - eapply triple_post; [apply sp_ret|]. now intros a g [H _].
  - unfold GameEngine.initialize. sp_chain; intros; sp_facts; try assumption.
    intros ps [= <-]. repeat constructor; eapply new_player_in_arena; eauto.
  - unfold count_down. sp_chain; intros; sp_facts; assumption.
  - sp_chain; intros; sp_facts; assumption.
  - sp_chain; intros; sp_facts; assumption.
  - eapply triple_post; [apply sp_modify|]. intros; sp_facts. assumption.
  - intros g Hg.
    destruct (move_player_cases c pid d g)
      as [[_ ->]|[(ps & _ & _ & ->)|(ps & j & p & Hps & Hj & Hp & H)]];
      [exact Hg|exact Hg|].
    destruct H as [(v & _ & _ & ->)|(e & _ & ->)]; [|exact Hg].
    intros ps' [= <-]. apply Forall_insert; [now apply Hg|].
    now apply moved_in_arena.
  - unfold GameEngine.change_position. sp_chain; intros; sp_facts; try assumption.
    intros ps [= <-]. repeat constructor; eapply new_player_in_arena; eauto.
Qed.

(** X3: players never leave the arena.  When the arena sizes are not negative,
    every initial position of the table is inside the arena and every player
    the engine holds is inside it, every player is inside it after [post],
    whatever the event and the listeners, and whether [post] returns or
    raises. *)
Theorem players_stay_in_arena c n ev w :
  fle 0 (fst (ARENA_SIZE c)) ->
  fle 0 (snd (ARENA_SIZE c)) ->
  Forall (vec_in_arena c) (PLAYER_INIT_POSITION c) ->
  all_in_arena c (model w) ->
  exists w',
    (EventManager.post (S (S n)) c ev w = Ok tt w' \/
     exists e, EventManager.post (S (S n)) c ev w = Raise e w') /\
    all_in_arena c (model w').
Proof.
  intros Hw Hh Htab Hg.
  apply (post_ends n c ev w (fun w' => all_in_arena c (model w'))).
  apply post_inv; [now apply all_in_arena_steps|exact Hg].
Qed.

Lemma players_stay_in_arena_witness :
  exists w',
    (EventManager.post 2 sample_const (EventPlayerMove 0 "left") started_world
       = Ok tt w' \/
     exists e,
       EventManager.post 2 sample_const (EventPlayerMove 0 "left") started_world
         = Raise e w') /\
    all_in_arena sample_const (model w').
Proof.
  apply (players_stay_in_arena sample_const 0 (EventPlayerMove 0 "left") started_world);
    [reflexivity|reflexivity| |].
  - repeat constructor.
  - intros ps [= <-]. repeat constructor.
Defined.

(** ** How deep [post] nests *)

(** X4: [post] and [notify] nest at most two deep.  Two units of fuel give
    the result of any larger amount and never run out; the events the engine
    posts while it handles an event ([Quit], [ChangePosition]) are handled
    without a further [post], so one unit is enough for them. *)
Theorem post_nests_two_deep c n ev w :
  EventManager.post (S (S n)) c ev w = EventManager.post 2 c ev w /\
  EventManager.post 2 c ev w <> OutOfFuel /\
  (forall e' w0, nested ev e' ->
     EventManager.post (S n) c e' w0 = EventManager.post 1 c e' w0 /\
     EventManager.post 1 c e' w0 <> OutOfFuel).
Proof.
  split; [apply post_fuel_enough|]. split; [apply post_returns|].
  intros e' w0 Hn. pose proof (nested_leaf _ _ Hn) as Hleaf.
  split; [now apply post_leaf_fuel|now apply post_leaf_returns].
Qed.

(** ** Quit *)

Lemma deliver_Quit_model c p ls w :
  exists w',
    EventManager.deliver c p ls EventQuit w = Ok tt w' /\
    posted w' = posted w /\
    notified w' = notified w ++ calls ls EventQuit /\
    listeners w' = listeners w /\
    model w' = if decide (model_count ls = 0%nat) then model w
               else set_running false (model w).
Proof.
  revert w. induction ls as [|l ls IH]; intros w.
  - exists w. cbn. rewrite app_nil_r. repeat split.
  - cbn [EventManager.deliver]. unfold bind, modify.
    destruct l as [|k]; cbn [EventManager.notify].
    + rewrite notify_Quit.
      destruct (IH (set_model (set_running false (model (log_notify TheModel EventQuit w)))
                      (log_notify TheModel EventQuit w)))
        as (w' & -> & Hp & Hn & Hl & Hm).
      exists w'. split; [reflexivity|]. split; [exact Hp|].
      split; [rewrite Hn; cbn; now rewrite <- app_assoc|]. split; [exact Hl|].
      rewrite Hm. rewrite (decide_False (P := model_count (TheModel :: ls) = 0%nat))
        by discriminate.
      case_decide; reflexivity.
    + cbn [ret].
      destruct (IH (log_notify (Probe k) EventQuit w))
        as (w' & -> & Hp & Hn & Hl & Hm).
      exists w'. split; [reflexivity|]. split; [exact Hp|].
      split; [rewrite Hn; cbn; now rewrite <- app_assoc|]. split; [exact Hl|].
      exact Hm.
Qed.

(** X5: [post(Quit)] always returns, whatever the state of the engine, even
    before [Initialize]: every listener is notified once, in order, nothing
    else is posted, and the engine changes in [running] alone, which is
    [False] as soon as the engine is among the listeners. *)
Theorem quit_always_returns c n w :
  exists w',
    EventManager.post (S n) c EventQuit w = Ok tt w' /\
    posted w' = posted w ++ [EventQuit] /\
    notified w' = notified w ++ calls (listeners w) EventQuit /\
    listeners w' = listeners w /\
    model w' = if decide (model_count (listeners w) = 0%nat) then model w
               else set_running false (model w).
Proof.
  rewrite post_unfold.
  destruct (deliver_Quit_model c (EventManager.post n c) (listeners w)
              (log_post EventQuit w)) as (w' & -> & Hp & Hn & Hl & Hm).
  exists w'. repeat split; assumption.
Qed.

(** ** Attributes that are not assigned yet *)

Lemma notify_PlayerMove_raise c p pid d w e :
  GameEngine.move_player c pid d (model w) = Raise e (model w) ->
  GameEngine.notify c p (EventPlayerMove pid d) w = Raise e w.
Proof.
  intros H. cbn [GameEngine.notify]. unfold bind, on_model, zoom.
  rewrite H. now rewrite set_model_id.
Qed.

(** X6: an event that needs an attribute the engine does not have yet raises
    [AttributeError] and changes nothing: [PlayerMove] before the players
    exist, [ChangePosition] before [roll] exists, and a tick in state PLAY
    before [run] has set the timer. *)
Theorem unassigned_attributes_raise c p w :
  (players (model w) = None ->
   forall pid d,
     GameEngine.notify c p (EventPlayerMove pid d) w = Raise AttributeError w) /\
  (roll (model w) = None ->
   GameEngine.notify c p EventChangePosition w = Raise AttributeError w) /\
  (timer (model w) = None ->
   top (statestack (state_machine (model w))) = VInt (STATE_PLAY c) ->
   STATE_MENU c <> STATE_PLAY c ->
   GameEngine.notify c p EventEveryTick w = Raise AttributeError w).
Proof.
  split; [|split].
  - intros Hp pid d. apply notify_PlayerMove_raise.
    destruct (move_player_cases c pid d (model w))
      as [[_ H]|[(ps & Hps & _)|(ps & j & q & Hps & _)]]; [exact H|congruence..].
  - intros Hr. cbn [GameEngine.notify].
    unfold on_model, zoom, GameEngine.change_position, bind, attr.
    rewrite Hr. now rewrite set_model_id.
  - intros Ht Htop Hne. rewrite notify_EveryTick. cbn zeta. rewrite Htop, Ht.
    cbn [value_eqb].
    replace (STATE_PLAY c =? STATE_MENU c)%Z with false
      by (symmetry; apply Z.eqb_neq; congruence).
    now rewrite Z.eqb_refl.
Qed.

Lemma unassigned_attributes_raise_witness :
  GameEngine.notify sample_const (EventManager.post 1 sample_const)
    (EventPlayerMove 0 "up") fresh_world = Raise AttributeError fresh_world /\
  GameEngine.notify sample_const (EventManager.post 1 sample_const)
    EventChangePosition fresh_world = Raise AttributeError fresh_world /\
  GameEngine.notify sample_const (EventManager.post 1 sample_const) EventEveryTick
    (set_model (set_state_machine {| statestack := [VInt 2] |} fresh_engine) fresh_world)
  = Raise AttributeError
      (set_model (set_state_machine {| statestack := [VInt 2] |} fresh_engine) fresh_world).
Proof.
  split; [|split].
  - apply (proj1 (unassigned_attributes_raise sample_const _ fresh_world)).
    reflexivity.
  - apply (proj1 (proj2 (unassigned_attributes_raise sample_const _ fresh_world))).
    reflexivity.
  - apply (proj2 (proj2 (unassigned_attributes_raise sample_const _ _)));
      [reflexivity|reflexivity|discriminate].
Defined.

(** ** Moves that raise *)

(** X7: a move that cannot be made raises and moves nobody.  With a frame
    rate of zero every [move_direction] raises [ZeroDivisionError], also for
    an unknown direction; otherwise a direction missing from the table raises
    [KeyError].  The player is unchanged, and the engine handling such a
    [PlayerMove] for an existing player raises the same error, leaves the
    store as it was and does not check the collision. *)
Theorem bad_move_raises c d :
  ((FPS c =? 0)%float = true ->
   forall p, Player.move_direction c d p = Raise ZeroDivisionError p) /\
  ((FPS c =? 0)%float = false -> DIRECTION_TO_VEC2 c !! d = None ->
   forall p, Player.move_direction c d p = Raise KeyError p) /\
  (forall post w ps pid j,
     players (model w) = Some ps ->
     norm_index (length ps) pid = Some j ->
     ((FPS c =? 0)%float = true ->
      GameEngine.notify c post (EventPlayerMove pid d) w
        = Raise ZeroDivisionError w) /\
     ((FPS c =? 0)%float = false -> DIRECTION_TO_VEC2 c !! d = None ->
      GameEngine.notify c post (EventPlayerMove pid d) w = Raise KeyError w)).
Proof.
  split; [|split].
  - intros HF p.
    destruct (move_direction_cases c d p) as [(v & _ & H & _)|[[_ H]|(H & _)]];
      [congruence|exact H|congruence].
  - intros HF Hd p.
    destruct (move_direction_cases c d p) as [(v & H & _)|[[H _]|(_ & _ & H)]];
      [congruence|congruence|exact H].
  - intros post w ps pid j Hps Hj.
    assert (Hcase :
      ((FPS c =? 0)%float = true ->
       GameEngine.move_player c pid d (model w) = Raise ZeroDivisionError (model w)) /\
      ((FPS c =? 0)%float = false -> DIRECTION_TO_VEC2 c !! d = None ->
       GameEngine.move_player c pid d (model w) = Raise KeyError (model w))).
    { unfold GameEngine.move_player, bind, attr. rewrite Hps.
      unfold getitem, list_store. rewrite Hj.
      destruct (ps !! j) as [q|] eqn:El.
      2:{ apply norm_index_lt in Hj. apply lookup_ge_None in El. lia. }
      unfold ret, zoom.
      destruct (move_direction_cases c d q)
        as [(v & Hv & HF & ->)|[[HF ->]|(HF & Hd & ->)]];
        (split; [intros HF'|intros HF' Hd']; try congruence);
        now rewrite list_insert_id, set_players_same. }
    destruct Hcase as [H1 H2]. split.
    + intros HF. now apply notify_PlayerMove_raise, H1.
    + intros HF Hd. now apply notify_PlayerMove_raise, H2.
Qed.

Lemma bad_move_raises_witness :
  Player.move_direction sample_const "north"
    {| player_id := 0; position := {| vx := 1; vy := 1 |}; speed := 70 |}
  = Raise KeyError
      {| player_id := 0; position := {| vx := 1; vy := 1 |}; speed := 70 |} /\
  GameEngine.notify sample_const (EventManager.post 1 sample_const)
    (EventPlayerMove 1 "north") started_world = Raise KeyError started_world.
Proof.
  split.
  - apply (proj1 (proj2 (bad_move_raises sample_const "north")));
      reflexivity.
  - eapply (proj2 (proj2 (proj2 (bad_move_raises sample_const "north"))
                     (EventManager.post 1 sample_const) started_world _ 1%Z 1%nat
                     eq_refl eq_refl)); reflexivity.
Defined.

(** ** Where a move ends *)

(** X8: a move adds [speed / FPS] times the direction's vector to the
    position, in float arithmetic, and then brings each coordinate back into
    its range: a coordinate that would fall below 0 ends at 0, one that would
    pass the arena size ends at the arena size, and one that stays in range
    is the sum itself.  A sum that is not a number ends at the arena size.
    The id and the speed of the player do not change. *)
Theorem move_displacement c d v p :
  (FPS c =? 0)%float = false ->
  DIRECTION_TO_VEC2 c !! d = Some v ->
  fle 0 (fst (ARENA_SIZE c)) ->
  fle 0 (snd (ARENA_SIZE c)) ->
  exists p',
    Player.move_direction c d p = Ok tt p' /\
    player_id p' = player_id p /\ speed p' = speed p /\
    let tx := (vx (position p) + speed p / FPS c * vx v)%float in
    let ty := (vy (position p) + speed p / FPS c * vy v)%float in
    ((tx <? 0)%float = true -> vx (position p') = 0%float) /\
    ((fst (ARENA_SIZE c) <? tx)%float = true ->
     (vx (position p') =? fst (ARENA_SIZE c))%float = true) /\
    (fle 0 tx -> fle tx (fst (ARENA_SIZE c)) ->
     (vx (position p') =? tx)%float = true) /\
    ((tx =? tx)%float = false ->
     (vx (position p') =? fst (ARENA_SIZE c))%float = true) /\
    ((ty <? 0)%float = true -> vy (position p') = 0%float) /\
    ((snd (ARENA_SIZE c) <? ty)%float = true ->
     (vy (position p') =? snd (ARENA_SIZE c))%float = true) /\
    (fle 0 ty -> fle ty (snd (ARENA_SIZE c)) ->
     (vy (position p') =? ty)%float = true) /\
    ((ty =? ty)%float = false ->
     (vy (position p') =? snd (ARENA_SIZE c))%float = true).
Proof.
  intros HF Hd Hw Hh. exists (moved c v p).
  split; [now apply move_direction_eq|]. split; [reflexivity|].
  split; [reflexivity|]. cbn zeta. cbn [moved set_position position vx vy].
  destruct (clamp_cases (fst (ARENA_SIZE c))
              (vx (position p) + speed p / FPS c * vx v) Hw) as (X1 & X2 & X3 & X4).
  destruct (clamp_cases (snd (ARENA_SIZE c))
              (vy (position p) + speed p / FPS c * vy v) Hh) as (Y1 & Y2 & Y3 & Y4).
  repeat split; assumption.
Qed.

Lemma move_displacement_witness :
  exists p',
    Player.move_direction sample_const "left"
      {| player_id := 0; position := {| vx := 1; vy := 400 |}; speed := 70 |}
    = Ok tt p' /\
    vx (position p') = 0%float /\ (vy (position p') =? 400)%float = true.
Proof.
  destruct (move_displacement sample_const "left" {| vx := -1; vy := 0 |}
              {| player_id := 0; position := {| vx := 1; vy := 400 |}; speed := 70 |})
    as (p' & E & _ & _ & X1 & _ & _ & _ & _ & _ & Y3 & _);
    [reflexivity|reflexivity|reflexivity|reflexivity|].
  exists p'. split; [exact E|]. split; [apply X1; reflexivity|].
  apply Y3; reflexivity.
Defined.

(** ** Ticks outside PLAY *)

Lemma value_eqb_eq a b : value_eqb a b = true -> a = b.
Proof.
  destruct a, b; cbn; try discriminate; [reflexivity|].
  intros H. apply Z.eqb_eq in H. now subst.
Qed.

Lemma notify_tick_idle c p w :
  top (statestack (state_machine (model w))) <> VInt (STATE_PLAY c) \/
  top (statestack (state_machine (model w))) = VInt (STATE_MENU c) ->
  GameEngine.notify c p EventEveryTick w = Ok tt w.
Proof.
  intros H. rewrite notify_EveryTick. cbn zeta.
  destruct (value_eqb _ (VInt (STATE_MENU c))) eqn:E1; [reflexivity|].
  destruct (value_eqb _ (VInt (STATE_PLAY c))) eqn:E2; [|reflexivity].
  apply value_eqb_eq in E2. destruct H as [H|H]; [contradiction|].
  rewrite H, value_eqb_refl in E1. discriminate.
Qed.

Lemma deliver_idle c p ls ev w :
  (forall w0, model w0 = model w -> GameEngine.notify c p ev w0 = Ok tt w0) ->
  EventManager.deliver c p ls ev w = Ok tt (add_notified (calls ls ev) w).
Proof.
  intros H. revert w H. induction ls as [|l ls IH]; intros w H.
  - unfold add_notified. cbn. rewrite app_nil_r. now destruct w.
  - cbn [EventManager.deliver]. unfold bind, modify.
    assert (E : EventManager.notify c p l ev (log_notify l ev w)
                = Ok tt (log_notify l ev w)).
    { destruct l; [now apply H|reflexivity]. }
    rewrite E, IH by (intros w0 Hm; now apply H).
    change (log_notify l ev w) with (add_notified [(l, ev)] w).
    now rewrite add_notified_app.
Qed.

Lemma ticks_idle c n k w :
  top (statestack (state_machine (model w))) <> VInt (STATE_PLAY c) \/
  top (statestack (state_machine (model w))) = VInt (STATE_MENU c) ->
  exists w',
    ticks (S n) c k w = Ok tt w' /\
    model w' = model w /\
    posted w' = posted w ++ repeat EventEveryTick k /\
    listeners w' = listeners w.
Proof.
  revert w. induction k as [|k IH]; intros w H.
  - exists w. cbn. rewrite app_nil_r. repeat split.
  - cbn [ticks]. unfold bind. rewrite post_unfold.
    rewrite deliver_idle by (intros w0 Hm; apply notify_tick_idle; now rewrite Hm).
    destruct (IH (add_notified (calls (listeners w) EventEveryTick)
                    (log_post EventEveryTick w)) H)
      as (w' & -> & Hm & Hp & Hl).
    exists w'. split; [reflexivity|]. split; [exact Hm|]. split; [|exact Hl].
    rewrite Hp. cbn. now rewrite <- app_assoc.
Qed.

(** X9: a tick changes the engine only in state PLAY.  When the top of the
    state stack is not PLAY (MENU, ENDGAME, the paused state, any other value,
    or no state at all), or is a PLAY that equals MENU, any number of ticks
    leaves the engine exactly as it was and posts nothing but the ticks: the
    timer does not run.  This holds for any listener list. *)
Theorem ticks_idle_outside_play c n k w :
  top (statestack (state_machine (model w))) <> VInt (STATE_PLAY c) \/
  top (statestack (state_machine (model w))) = VInt (STATE_MENU c) ->
  exists w',
    ticks (S n) c k w = Ok tt w' /\
    model w' = model w /\
    posted w' = posted w ++ repeat EventEveryTick k /\
    listeners w' = listeners w.
Proof. apply ticks_idle. Qed.

Lemma ticks_idle_outside_play_witness :
  exists w',
    ticks 1 sample_const 5 started_world = Ok tt w' /\
    model w' = model started_world /\
    posted w' = posted started_world ++ repeat EventEveryTick 5 /\
    listeners w' = listeners started_world.
Proof.
  apply (ticks_idle_outside_play sample_const 0 5 started_world).
  right. reflexivity.
Defined.

(** ** Events that undo each other *)

(** Posting an event that the engine handles by applying [f] to itself, to a
    list that holds the engine once. *)
Lemma post_once_model n c ev (f : GameEngine -> GameEngine) w :
  (forall p w0, GameEngine.notify c p ev w0 = Ok tt (set_model (f (model w0)) w0)) ->
  model_count (listeners w) = 1%nat ->
  EventManager.post (S n) c ev w =
  Ok tt {| listeners := listeners w; model := f (model w);
           posted := posted w ++ [ev];
           notified := notified w ++ calls (listeners w) ev |}.
Proof.
  intros H Hc. apply (post_once n c ev (modify f)); [|exact Hc|reflexivity].
  intros p w0. now rewrite H.
Qed.

Lemma set_state_machine_same g sm : state_machine g = sm -> set_state_machine sm g = g.
Proof. destruct g; cbn; intros ->; reflexivity. Qed.

Lemma push_pop_engine g s :
  set_state_machine
    {| statestack := removelast (statestack (state_machine g) ++ [s]) |}
    (set_state_machine {| statestack := statestack (state_machine g) ++ [s] |} g)
  = g.
Proof.
  rewrite removelast_last. destruct g as [[st] r ps t run]. reflexivity.
Qed.

(** X10: pausing freezes the game and continuing resumes it.  With the engine
    registered once and the paused state different from PLAY, posting [Pause],
    then any number of ticks, then [Continue] leaves the engine exactly as it
    was before the pause (stack, timer, roles and players), and posts nothing
    besides these events. *)
Theorem pause_then_continue c n k w :
  model_count (listeners w) = 1%nat ->
  STATE_STOP c <> STATE_PLAY c ->
  exists w',
    (EventManager.post (S n) c EventPause ;;;
     ticks (S n) c k ;;;
     EventManager.post (S n) c EventContinue) w = Ok tt w' /\
    model w' = model w /\
    posted w' = posted w ++ [EventPause] ++ repeat EventEveryTick k ++ [EventContinue] /\
    listeners w' = listeners w.
Proof.
  intros Hc Hne. unfold bind at 1.
  rewrite (post_once_model n c EventPause
             (fun g => set_state_machine
                {| statestack := statestack (state_machine g)
                                   ++ [VInt (STATE_STOP c)] |} g))
    by (intros; reflexivity || assumption).
  match goal with |- context [bind _ _ ?w1] =>
    destruct (ticks_idle c n k w1) as (w2 & E2 & Hm2 & Hp2 & Hl2) end.
  { left. cbn [model]. cbn [set_state_machine state_machine statestack].
    rewrite top_snoc. congruence. }
  unfold bind. rewrite E2.
  rewrite (post_once_model n c EventContinue
             (fun g => set_state_machine
                {| statestack := removelast (statestack (state_machine g)) |} g))
    by (intros; rewrite ?notify_Continue, ?Hl2; reflexivity || assumption).
  eexists. split; [reflexivity|]. cbn [model posted listeners].
  rewrite Hm2, Hp2, Hl2. cbn [model posted listeners].
  split; [apply push_pop_engine|]. split; [|reflexivity].
  now rewrite <- !app_assoc.
Qed.

Lemma pause_then_continue_witness :
  exists w',
    (EventManager.post 1 sample_const EventPause ;;;
     ticks 1 sample_const 3 ;;;
     EventManager.post 1 sample_const EventContinue) playing_world = Ok tt w' /\
    model w' = model playing_world /\
    posted w' = posted playing_world
                ++ [EventPause] ++ repeat EventEveryTick 3 ++ [EventContinue] /\
    listeners w' = listeners playing_world.
Proof.
  apply (pause_then_continue sample_const 0 3 playing_world);
    [reflexivity|discriminate].
Defined.

Lemma quit_step n c w :
  model_count (listeners w) = 1%nat ->
  exists w',
    EventManager.post (S n) c EventQuit w = Ok tt w' /\
    posted w' = posted w ++ [EventQuit] /\
    listeners w' = listeners w /\
    model w' = set_running false (model w).
Proof.
  intros Hc.
  rewrite (post_once_model n c EventQuit (set_running false))
    by (intros; reflexivity || assumption).
  eexists. split; [reflexivity|]. repeat split.
Qed.

(** X11: a state pushed by [StateChange] is taken off again by
    [StateChange(POP)].  With the engine registered once and [s] any value
    other than the POP sentinel, posting [StateChange(s)] then
    [StateChange(POP)] gives the stack back as it was.  When [s] is a state
    token nothing else happens; when [s] is [None], the pop returns [None]
    and [Quit] is posted although the stack was not empty, so the engine ends
    with [running] false. *)
Theorem state_change_then_pop c n s w :
  model_count (listeners w) = 1%nat ->
  value_eqb s (VInt (STATE_POP c)) = false ->
  exists w',
    (EventManager.post (S (S n)) c (EventStateChange s) ;;;
     EventManager.post (S (S n)) c (EventStateChange (VInt (STATE_POP c)))) w
      = Ok tt w' /\
    model w' = (if is_None s then set_running false (model w) else model w) /\
    posted w' = posted w ++ [EventStateChange s; EventStateChange (VInt (STATE_POP c))]
                ++ (if is_None s then [EventQuit] else []) /\
    listeners w' = listeners w.
Proof.
  intros Hc Hs. unfold bind.
  rewrite (post_once_model (S n) c (EventStateChange s)
             (fun g => set_state_machine
                {| statestack := statestack (state_machine g) ++ [s] |} g))
    by first [assumption|intros; erewrite notify_push by eauto; reflexivity].
  match goal with |- context [EventManager.post _ _ _ ?w1] =>
    destruct (post_once_lift (S n) c (EventStateChange (VInt (STATE_POP c))) w1
      (fun g po =>
         g = (if is_None s then set_running false (model w) else model w) /\
         po = posted w ++ [EventStateChange s; EventStateChange (VInt (STATE_POP c))]
              ++ (if is_None s then [EventQuit] else [])) Hc)
      as (w' & E & [Hm Hp] & Hl) end.
  - intros w0 Hm Hpo Hl. cbn [model posted listeners] in Hm, Hpo, Hl.
    rewrite notify_StateChange_POP by apply value_eqb_refl. cbn zeta.
    rewrite Hm. cbn [set_state_machine state_machine statestack].
    rewrite top_snoc, removelast_last.
    destruct (is_None s).
    + match goal with |- context [EventManager.post _ _ _ ?w2] =>
        destruct (quit_step n c w2) as (w3 & -> & Hp3 & Hl3 & Hm3) end.
      { cbn [listeners set_model]. now rewrite Hl. }
      exists w3. split; [reflexivity|]. cbn [model posted listeners set_model] in *.
      split; [|now rewrite Hl3]. split.
      * rewrite Hm3. destruct (model w) as [[st] r ps t run]. reflexivity.
      * rewrite Hp3, Hpo, <- !app_assoc. reflexivity.
    + eexists. split; [reflexivity|]. cbn [model posted listeners set_model].
      split; [|exact Hl]. split.
      * destruct (model w) as [[st] r ps t run]. reflexivity.
      * rewrite Hpo, <- !app_assoc. reflexivity.
  - exists w'. split; [exact E|]. split; [exact Hm|]. split; [exact Hp|exact Hl].
Qed.

Lemma state_change_then_pop_witness :
  exists w',
    (EventManager.post 2 sample_const (EventStateChange VNone) ;;;
     EventManager.post 2 sample_const (EventStateChange (VInt 0))) started_world
      = Ok tt w' /\
    model w' = set_running false (model started_world) /\
    posted w' = posted started_world
                ++ [EventStateChange VNone; EventStateChange (VInt 0)] ++ [EventQuit] /\
    listeners w' = listeners started_world.
Proof.
  apply (state_change_then_pop sample_const 0 VNone started_world);
    reflexivity.
Defined.

(** ** A timer that has run out *)

(** X12: the swap fires only when the timer reaches exactly zero.  In state
    PLAY with the engine registered once and a timer that is already zero or
    negative, [k] ticks only take the timer further down, to [T - k]: no
    [ChangePosition] is ever posted and the roles and players stay as they
    are. *)
Theorem expired_timer_never_fires c n k w T :
  model_count (listeners w) = 1%nat ->
  top (statestack (state_machine (model w))) = VInt (STATE_PLAY c) ->
  STATE_MENU c <> STATE_PLAY c ->
  timer (model w) = Some T ->
  (T <= 0)%Z ->
  exists w',
    ticks (S n) c k w = Ok tt w' /\
    model w' = set_timer (T - Z.of_nat k) (model w) /\
    posted w' = posted w ++ repeat EventEveryTick k /\
    listeners w' = listeners w.
Proof.
  revert w T. induction k as [|k IH]; intros w T Hc Htop Hne Ht HT.
  - exists w. cbn [ticks ret repeat]. rewrite app_nil_r.
    replace (T - Z.of_nat 0)%Z with T by lia.
    split; [reflexivity|]. split; [|split; reflexivity].
    destruct (model w); cbn in *; now subst.
  - destruct (post_tick_play n c w T Hc Htop Hne Ht) as (w1 & E & [Hm Hp] & Hl);
      [lia|].
    destruct (IH w1 (T - 1)%Z) as (w' & E' & Hm' & Hp' & Hl').
    + now rewrite Hl.
    + now rewrite Hm.
    + assumption.
    + now rewrite Hm.
    + lia.
    + exists w'. cbn [ticks]. unfold bind. rewrite E. split; [exact E'|].
      split; [|split].
      * rewrite Hm', Hm.
        replace (T - Z.of_nat (S k))%Z with (T - 1 - Z.of_nat k)%Z by lia.
        reflexivity.
      * rewrite Hp', Hp, <- app_assoc. reflexivity.
      * congruence.
Qed.

Lemma expired_timer_never_fires_witness :
  exists w',
    ticks 1 sample_const 4
      (set_model (set_timer 0 (model playing_world)) playing_world) = Ok tt w' /\
    model w' = set_timer (0 - Z.of_nat 4) (set_timer 0 (model playing_world)) /\
    posted w' = posted playing_world ++ repeat EventEveryTick 4 /\
    listeners w' = listeners playing_world.
Proof.
  apply (expired_timer_never_fires sample_const 0 4
           (set_model (set_timer 0 (model playing_world)) playing_world) 0%Z);
    [reflexivity|reflexivity|discriminate|reflexivity|lia].
Defined.

(** ** Nested posts are delivered first *)

(** X13: [post] is synchronous and re-entrant.  When the engine, registered
    once between the listeners [pre] and [suf], handles the tick that brings
    the timer to zero, the [ChangePosition] it posts is delivered to every
    listener, those before and after the engine alike, before the tick goes
    on to the listeners after the engine: these hear [ChangePosition] before
    the tick that caused it. *)
Theorem nested_post_delivered_first c n w pre suf g' :
  listeners w = pre ++ TheModel :: suf ->
  model_count pre = 0%nat -> model_count suf = 0%nat ->
  top (statestack (state_machine (model w))) = VInt (STATE_PLAY c) ->
  STATE_MENU c <> STATE_PLAY c ->
  timer (model w) = Some 1%Z ->
  GameEngine.change_position c (set_timer 0 (model w)) = Ok tt g' ->
  exists w',
    EventManager.post (S (S n)) c EventEveryTick w = Ok tt w' /\
    model w' = g' /\
    posted w' = posted w ++ [EventEveryTick; EventChangePosition] /\
    notified w' = notified w
      ++ calls pre EventEveryTick ++ [(TheModel, EventEveryTick)]
      ++ calls (pre ++ TheModel :: suf) EventChangePosition
      ++ calls suf EventEveryTick.
Proof.
  intros El Hpre Hsuf Htop Hne Ht Hcp.
  assert (Hc : model_count (listeners w) = 1%nat).
  { rewrite El. unfold model_count in *. rewrite List.filter_app, length_app.
    cbn. rewrite Hpre, Hsuf. reflexivity. }
  eexists. split.
  { rewrite post_unfold. rewrite El at 1.
    rewrite deliver_once by exact Hpre. unfold bind.
    rewrite (notify_tick_play c _ _ 1%Z) by assumption.
    change (1 - 1 =? 0)%Z with true. cbv iota.
    rewrite (post_once n c EventChangePosition (GameEngine.change_position c) _ g');
      [|reflexivity|exact Hc|exact Hcp].
    rewrite deliver_probes by exact Hsuf. reflexivity. }
  cbn [model posted notified add_notified].
  split; [reflexivity|]. split.
  - cbn. now rewrite <- app_assoc.
  - cbn [listeners log_post set_model add_notified]. rewrite El.
    cbn [notified set_model add_notified log_post]. rewrite <- !app_assoc.
    reflexivity.
Qed.

Lemma nested_post_delivered_first_witness :
  exists w',
    EventManager.post 2 sample_const EventEveryTick
      (set_listeners [Probe 0; TheModel; Probe 1]
         (set_model (set_timer 1 (model playing_world)) playing_world)) = Ok tt w' /\
    notified w' = notified playing_world
      ++ [(Probe 0, EventEveryTick); (TheModel, EventEveryTick);
          (Probe 0, EventChangePosition); (TheModel, EventChangePosition);
          (Probe 1, EventChangePosition); (Probe 1, EventEveryTick)].
Proof.
  destruct (nested_post_delivered_first sample_const 0
              (set_listeners [Probe 0; TheModel; Probe 1]
                 (set_model (set_timer 1 (model playing_world)) playing_world))
              [Probe 0] [Probe 1]
              (run_from_engine sample_const (set_timer 0 (model playing_world))))
    as (w' & E & _ & _ & Hn);
    [reflexivity|reflexivity|reflexivity|reflexivity|discriminate|reflexivity
    |vm_compute; reflexivity|].
  exists w'. split; [exact E|exact Hn].
Defined.

(** ** Two rounds *)

Lemma ticks_app fuel c a b w :
  ticks fuel c (a + b) w = (ticks fuel c a ;;; ticks fuel c b) w.
Proof.
  revert w. induction a as [|a IH]; intros w; [reflexivity|].
  cbn [Nat.add ticks]. unfold bind.
  destruct (EventManager.post fuel c EventEveryTick w) as [[] w1|e w1|];
    [|reflexivity..].
  rewrite IH. reflexivity.
Qed.

(** X14: the roles alternate with the rounds.  From a timer at [T > 0] in
    state PLAY, with the engine registered once, a game length above zero and
    the roles assigned, [T] ticks followed by [GAME_LENGTH] more post exactly
    two [ChangePosition] events, one at the end of each round; after the
    second [roll] is what it was at the start, both players are new, at the
    initial positions of their ids, and the timer is the game length. *)
Theorem two_rounds_restore_roles c n w T a b va vb :
  model_count (listeners w) = 1%nat ->
  top (statestack (state_machine (model w))) = VInt (STATE_PLAY c) ->
  STATE_MENU c <> STATE_PLAY c ->
  roll (model w) = Some [a; b] ->
  (0 <= a)%Z -> (0 <= b)%Z ->
  PLAYER_INIT_POSITION c !! Z.to_nat a = Some va ->
  PLAYER_INIT_POSITION c !! Z.to_nat b = Some vb ->
  timer (model w) = Some T ->
  (0 < T)%Z -> (0 < GAME_LENGTH c)%Z ->
  exists w',
    ticks (S (S n)) c (Z.to_nat T + Z.to_nat (GAME_LENGTH c)) w = Ok tt w' /\
    posted w' = posted w
      ++ repeat EventEveryTick (Z.to_nat T) ++ [EventChangePosition]
      ++ repeat EventEveryTick (Z.to_nat (GAME_LENGTH c)) ++ [EventChangePosition] /\
    roll (model w') = Some [a; b] /\
    players (model w') = Some [new_player c a va; new_player c b vb] /\
    timer (model w') = Some (GAME_LENGTH c).
Proof.
  intros Hc Htop Hne Hroll Ha Hb Hva Hvb Ht HT HG.
  destruct (Z.to_nat T) as [|k1] eqn:E1; [lia|].
  destruct (Z.to_nat (GAME_LENGTH c)) as [|k2] eqn:E2; [lia|].
  pose proof (change_position_spec c (set_timer 0 (model w)) a b va vb
                Hroll Ha Hb Hva Hvb) as Hcp1.
  assert (Ht1 : timer (model w) = Some (Z.of_nat (S k1)))
    by (rewrite Ht; f_equal; lia).
  destruct (ticks_round n c k1 w _ Hc Htop Hne Ht1 Hcp1)
    as (w1 & Et1 & Hm1 & Hp1 & Hl1).
  assert (Hcp2 : GameEngine.change_position c (set_timer 0 (model w1)) =
    Ok tt (set_timer (GAME_LENGTH c)
             (set_players [new_player c a va; new_player c b vb]
                (set_roll [a; b] (set_timer 0 (model w1)))))).
  { apply change_position_spec; try assumption. now rewrite Hm1. }
  assert (Hc1 : model_count (listeners w1) = 1%nat) by now rewrite Hl1.
  assert (Htop1 : top (statestack (state_machine (model w1))) = VInt (STATE_PLAY c))
    by now rewrite Hm1.
  assert (Ht2 : timer (model w1) = Some (Z.of_nat (S k2)))
    by (rewrite Hm1; cbn [timer set_timer]; f_equal; lia).
  destruct (ticks_round n c k2 w1 _ Hc1 Htop1 Hne Ht2 Hcp2)
    as (w2 & Et2 & Hm2 & Hp2 & Hl2).
  exists w2. split.
  - rewrite ticks_app. unfold bind. now rewrite Et1.
  - rewrite Hp2, Hp1, Hm2. rewrite <- !app_assoc. repeat split.
Qed.

Lemma two_rounds_restore_roles_witness :
  exists w',
    ticks 2 sample_const
      (Z.to_nat (GAME_LENGTH sample_const) + Z.to_nat (GAME_LENGTH sample_const))
      playing_world = Ok tt w' /\
    posted w' = posted playing_world
      ++ repeat EventEveryTick (Z.to_nat (GAME_LENGTH sample_const))
      ++ [EventChangePosition]
      ++ repeat EventEveryTick (Z.to_nat (GAME_LENGTH sample_const))
      ++ [EventChangePosition] /\
    roll (model w') = Some [0; 1]%Z /\
    players (model w')
      = Some [new_player sample_const 0 {| vx := 200; vy := 400 |};
              new_player sample_const 1 {| vx := 600; vy := 400 |}] /\
    timer (model w') = Some (GAME_LENGTH sample_const).
Proof.
  apply (two_rounds_restore_roles sample_const 0 playing_world
           (GAME_LENGTH sample_const) 0%Z 1%Z);
    [reflexivity|reflexivity|discriminate|reflexivity|lia|lia
    |reflexivity|reflexivity|reflexivity|reflexivity|reflexivity].
Defined.

(** ** Unregistering *)

(** X15: [unregister_listener] removes nothing.  A listener that was
    registered and then unregistered is still the last entry of the list, and
    a [post] that returns has notified it. *)
Theorem unregister_removes_nothing c n ev l w w' :
  (EventManager.register_listener l ;;;
   EventManager.unregister_listener l ;;;
   EventManager.post (S (S n)) c ev) w = Ok tt w' ->
  listeners w' = listeners w ++ [l] /\
  exists cs, notified w' = notified w ++ cs /\ In (l, ev) cs.
Proof.
  unfold bind, EventManager.register_listener, EventManager.unregister_listener,
    modify, ret.
  intros H. split.
  - pose proof (post_listeners (S (S n)) c ev
                  (set_listeners (listeners w ++ [l]) w)) as Hl.
    rewrite H in Hl. exact Hl.
  - rewrite post_unfold in H.
    pose proof (deliver_trace c (S n) (listeners w ++ [l]) ev
                  (log_post ev (set_listeners (listeners w ++ [l]) w))
                  (post_leaf_trace (S n) c)) as Ht.
    cbn [listeners set_listeners log_post] in H. rewrite H in Ht.
    destruct Ht as (cs & E & Hcs). rewrite firstn_all in Hcs.
    exists cs. split; [exact E|].
    assert (Hin : In (l, ev) (calls_with ev cs)).
    { rewrite Hcs. unfold calls. rewrite map_app. apply in_or_app. right. now left. }
    unfold calls_with in Hin. apply List.filter_In in Hin. exact (proj1 Hin).
Qed.

Lemma unregister_removes_nothing_witness :
  listeners (run_from fresh_world
               (EventManager.register_listener (Probe 7) ;;;
                EventManager.unregister_listener (Probe 7) ;;;
                EventManager.post 2 sample_const EventPause))
    = listeners fresh_world ++ [Probe 7] /\
  exists cs,
    notified (run_from fresh_world
                (EventManager.register_listener (Probe 7) ;;;
                 EventManager.unregister_listener (Probe 7) ;;;
                 EventManager.post 2 sample_const EventPause))
      = notified fresh_world ++ cs /\ In (Probe 7, EventPause) cs.
Proof.
  apply (unregister_removes_nothing sample_const 0 EventPause (Probe 7) fresh_world).
  vm_compute. reflexivity.
Defined.

(** ** Initialize *)

(** X16: [Initialize] does not start from scratch.  With the engine
    registered once and both initial positions in the table, posting it
    pushes MENU on top of whatever the stack holds, sets [roll] to [[0, 1]]
    and replaces the players by new ones at the initial positions, player 0
    with the defense speed and player 1 with the attack speed; the timer and
    [running] are left as they are. *)
Theorem initialize_effect c n w v0 v1 :
  model_count (listeners w) = 1%nat ->
  PLAYER_INIT_POSITION c !! 0%nat = Some v0 ->
  PLAYER_INIT_POSITION c !! 1%nat = Some v1 ->
  exists w',
    EventManager.post (S n) c EventInitialize w = Ok tt w' /\
    statestack (state_machine (model w'))
      = statestack (state_machine (model w)) ++ [VInt (STATE_MENU c)] /\
    roll (model w') = Some [0; 1]%Z /\
    players (model w')
      = Some [ {| player_id := 0; position := v0; speed := SPEED_DEFENSE c |};
               {| player_id := 1; position := v1; speed := SPEED_ATTACK c |} ] /\
    timer (model w') = timer (model w) /\
    running (model w') = running (model w) /\
    posted w' = posted w ++ [EventInitialize] /\
    listeners w' = listeners w.
Proof.
  intros Hc H0 H1.
  rewrite (post_once n c EventInitialize (GameEngine.initialize c) w _
             (fun _ _ => eq_refl) Hc (initialize_spec c (model w) v0 v1 H0 H1)).
  eexists. split; [reflexivity|]. repeat split.
Qed.

Lemma initialize_effect_witness :
  exists w',
    EventManager.post 1 sample_const EventInitialize playing_world = Ok tt w' /\
    statestack (state_machine (model w')) = [VInt 1; VInt 2; VInt 1] /\
    roll (model w') = Some [0; 1]%Z /\
    players (model w')
      = Some [ {| player_id := 0; position := {| vx := 200; vy := 400 |};
                  speed := 70 |};
               {| player_id := 1; position := {| vx := 600; vy := 400 |};
                  speed := 100 |} ] /\
    timer (model w') = Some 1800%Z /\
    running (model w') = None /\
    posted w' = posted playing_world ++ [EventInitialize] /\
    listeners w' = listeners playing_world.
Proof.
  apply (initialize_effect sample_const 0 playing_world
           {| vx := 200; vy := 400 |} {| vx := 600; vy := 400 |});
    reflexivity.
Defined.

Lemma Player_init_raise {S} c pid (s : S) :
  (Z.of_nat (length (PLAYER_INIT_POSITION c)) <= pid)%Z ->
  Player.init c pid s = Raise IndexError s.
Proof.
  intros H. unfold Player.init, bind, getitem, norm_index.
  replace (pid <? 0)%Z with false by (symmetry; apply Z.ltb_ge; lia).
  cbv zeta iota.
  replace (pid <? 0)%Z with false by (symmetry; apply Z.ltb_ge; lia).
  replace (Z.of_nat (length (PLAYER_INIT_POSITION c)) <=? pid)%Z with true
    by (symmetry; apply Z.leb_le; lia).
  reflexivity.
Qed.

(** X17: [Initialize] fails half-way when an initial position is missing.
    With fewer than two entries in the position table, the engine raises
    [IndexError] after MENU has been pushed and [roll] set to [[0, 1]]: the
    stack and [roll] keep these changes, the players are what they were. *)
Theorem initialize_fails_half_way c p w :
  (length (PLAYER_INIT_POSITION c) < 2)%nat ->
  GameEngine.notify c p EventInitialize w =
  Raise IndexError
    (set_model
       (set_roll [0; 1]%Z
          (set_state_machine
             {| statestack := statestack (state_machine (model w))
                                ++ [VInt (STATE_MENU c)] |} (model w))) w).
Proof.
  intros Hlen. cbn [GameEngine.notify]. unfold on_model, zoom.
  assert (E : GameEngine.initialize c (model w) =
    Raise IndexError
      (set_roll [0; 1]%Z
         (set_state_machine
            {| statestack := statestack (state_machine (model w))
                               ++ [VInt (STATE_MENU c)] |} (model w)))).
  { unfold GameEngine.initialize.
    mstep ltac:(reflexivity).
    mstep ltac:(reflexivity).
    mstep ltac:(reflexivity).
    mstep ltac:(apply getitem_pair_0).
    destruct (PLAYER_INIT_POSITION c) as [|v0 [|v1 rest]] eqn:Et;
      [| |cbn in Hlen; lia].
    - unfold bind at 1. rewrite Player_init_raise by (rewrite Et; cbn; lia).
      reflexivity.
    - mstep ltac:(apply (Player_init_spec c 0 v0); [lia|now rewrite Et]).
      mstep ltac:(reflexivity).
      mstep ltac:(apply getitem_pair_1).
      unfold bind at 1. rewrite Player_init_raise by (rewrite Et; cbn; lia).
      reflexivity. }
  now rewrite E.
Qed.

Lemma initialize_fails_half_way_witness :
  GameEngine.notify
    (mkConst 60 1800 (800, 800)%float 75 100 70 [ {| vx := 200; vy := 400 |} ] ∅ 0 1 2 3 4)
    (EventManager.post 1 sample_const) EventInitialize fresh_world
  = Raise IndexError
      (set_model
         (set_roll [0; 1]%Z
            (set_state_machine {| statestack := [VInt 1] |} fresh_engine))
         fresh_world).
Proof.
  apply (initialize_fails_half_way
           (mkConst 60 1800 (800, 800)%float 75 100 70 [ {| vx := 200; vy := 400 |} ] ∅
              0 1 2 3 4)).
  cbn. lia.
Defined.

(** ** The main loop *)

Lemma deliver_Initialize c p ls w v0 v1 :
  PLAYER_INIT_POSITION c !! 0%nat = Some v0 ->
  PLAYER_INIT_POSITION c !! 1%nat = Some v1 ->
  exists w',
    EventManager.deliver c p ls EventInitialize w = Ok tt w' /\
    running (model w') = running (model w) /\
    listeners w' = listeners w /\
    ((top (statestack (state_machine (model w'))) = VInt (STATE_MENU c) /\
      roll (model w') = Some [0; 1]%Z) \/
     (model_count ls = 0%nat /\ model w' = model w)).
Proof.
  intros H0 H1. revert w. induction ls as [|l ls IH]; intros w.
  - exists w. repeat split. right. split; reflexivity.
  - cbn [EventManager.deliver]. unfold bind, modify.
    destruct l as [|k]; cbn [EventManager.notify].
    + cbn [GameEngine.notify]. unfold on_model, zoom.
      rewrite (initialize_spec c _ v0 v1 H0 H1).
      match goal with |- context [EventManager.deliver _ _ _ _ ?w1] =>
        destruct (IH w1) as (w' & -> & Hr & Hl & Ht) end.
      exists w'. split; [reflexivity|]. split; [exact Hr|]. split; [exact Hl|].
      left. destruct Ht as [Ht|[_ Hm]]; [exact Ht|].
      rewrite Hm. cbn [model set_model set_players set_roll set_state_machine
                         state_machine statestack roll].
      split; [apply top_snoc|reflexivity].
    + cbn [ret]. destruct (IH (log_notify (Probe k) EventInitialize w))
        as (w' & -> & Hr & Hl & Ht).
      exists w'. split; [reflexivity|]. split; [exact Hr|]. split; [exact Hl|].
      exact Ht.
Qed.

Lemma tick_in_menu c w :
  top (statestack (state_machine (model w))) = VInt (STATE_MENU c) ->
  exists w',
    EventManager.post 2 c EventEveryTick w = Ok tt w' /\
    model w' = model w /\ listeners w' = listeners w.
Proof.
  intros H. rewrite post_unfold.
  rewrite deliver_idle
    by (intros w0 Hm; apply notify_tick_idle; right; now rewrite Hm).
  eexists. repeat split.
Qed.

Lemma run_loop_in_menu c fuel : forall w r,
  running (model w) = Some true ->
  roll (model w) = Some r ->
  top (statestack (state_machine (model w))) = VInt (STATE_MENU c) ->
  run_loop fuel c w = OutOfFuel.
Proof.
  induction fuel as [|fuel IH]; intros w r Hr Hroll Hi; [reflexivity|].
  cbn [run_loop]. unfold bind at 1. unfold on_model at 1, zoom, attr. rewrite Hr.
  rewrite set_model_id. unfold bind at 1.
  destruct (tick_in_menu c w Hi) as (w' & -> & Hm & Hl).
  unfold bind at 1. unfold on_model, zoom, clock_tick, bind, attr.
  rewrite Hm, Hroll. cbn [ret]. rewrite <- Hm, set_model_id.
  apply (IH w' r); now rewrite Hm.
Qed.

(** X18: left to itself, [run] never ends.  When the engine is among the
    listeners and both initial positions are in the table, [run] sets
    [running], posts [Initialize] and sets the timer; the engine is then in
    state MENU, where ticks change nothing, and no listener posts [Quit]:
    whatever the bound on the number of iterations, the loop is still running
    when the bound is reached. *)
Theorem run_never_ends_alone c fuel w v0 v1 :
  model_count (listeners w) <> 0%nat ->
  PLAYER_INIT_POSITION c !! 0%nat = Some v0 ->
  PLAYER_INIT_POSITION c !! 1%nat = Some v1 ->
  run fuel c w = OutOfFuel.
Proof.
  intros Hc H0 H1. unfold run. unfold bind at 1. unfold on_model at 1, zoom, modify.
  unfold bind at 1. rewrite post_unfold.
  match goal with |- context [EventManager.deliver _ ?p ?ls _ ?w1] =>
    destruct (deliver_Initialize c p ls w1 v0 v1 H0 H1)
      as (w2 & -> & Hr & Hl & Ht) end.
  destruct Ht as [[Ht Hroll]|[Hc0 _]]; [|contradiction].
  unfold bind at 1. unfold on_model, zoom, modify.
  apply (run_loop_in_menu c fuel _ [0; 1]%Z).
  - cbn [model set_model set_timer running]. rewrite Hr. reflexivity.
  - exact Hroll.
  - exact Ht.
Qed.

Lemma run_never_ends_alone_witness :
  run 1000 sample_const fresh_world = OutOfFuel.
Proof.
  apply (run_never_ends_alone sample_const 1000 fresh_world
           {| vx := 200; vy := 400 |} {| vx := 600; vy := 400 |});
    [discriminate|reflexivity|reflexivity].
Defined.

(** ** Quit is final *)

Lemma stopped_steps c :
  forall m, engine_step c m -> keeps (fun g => running g = Some false) m.
Proof.
  intros m Hstep. unfold keeps.
  destruct Hstep as [| | |s Hpush| | |pid d|].
  - eapply triple_post; [apply sp_ret|]. now intros a g [H _].
  - unfold GameEngine.initialize. sp_chain; intros; sp_facts; assumption.
  - unfold count_down. sp_chain; intros; sp_facts; assumption.
  - sp_chain; intros; sp_facts; assumption.
  - sp_chain; intros; sp_facts; assumption.
  - eapply triple_post; [apply sp_modify|]. intros; sp_facts. reflexivity.
  - intros g Hg.
    destruct (move_player_cases c pid d g)
      as [[_ ->]|[(ps & _ & _ & ->)|(ps & j & p & Hps & Hj & Hp & H)]];
      [exact Hg|exact Hg|].
    destruct H as [(v & _ & _ & ->)|(e & _ & ->)]; exact Hg.
  - unfold GameEngine.change_position. sp_chain; intros; sp_facts; assumption.
Qed.

(** X19: nothing the engine handles sets [running] again.  Once [running] is
    [False] it is [False] after every [post], whatever the event and the
    listeners, and whether [post] returns or raises: only [run] itself sets
    it to [True]. *)
Theorem quit_is_final c n ev w :
  running (model w) = Some false ->
  exists w',
    (EventManager.post (S (S n)) c ev w = Ok tt w' \/
     exists e, EventManager.post (S (S n)) c ev w = Raise e w') /\
    running (model w') = Some false.
Proof.
  intros Hw.
  apply (post_ends n c ev w (fun w' => running (model w') = Some false)).
  apply (post_inv c (fun g => running g = Some false));
    [apply stopped_steps|exact Hw].
Qed.

Lemma quit_is_final_witness :
  exists w',
    (EventManager.post 2 sample_const EventInitialize
       (set_model (set_running false (model started_world)) started_world) = Ok tt w' \/
     exists e,
       EventManager.post 2 sample_const EventInitialize
         (set_model (set_running false (model started_world)) started_world)
       = Raise e w') /\
    running (model w') = Some false.
Proof.
  apply (quit_is_final sample_const 0 EventInitialize
           (set_model (set_running false (model started_world)) started_world)).
  reflexivity.
Defined.

(** ** Events as text *)

Lemma append_inv_head (s a b : string) : s +:+ a = s +:+ b -> a = b.
Proof.
  induction s as [|x s IH]; cbn; [auto|]. intros [= H]. auto.
Qed.

Lemma no_space_split s1 : forall s2 r1 r2,
  no_space s1 -> no_space s2 ->
  s1 +:+ String Ascii.Space r1 = s2 +:+ String Ascii.Space r2 ->
  s1 = s2 /\ r1 = r2.
Proof.
  induction s1 as [|x s1 IH]; intros [|y s2] r1 r2 H1 H2; cbn.
  - intros [= ->]. auto.
  - intros [= <- _]. destruct H2 as [H2 _]. now destruct H2.
  - intros [= -> _]. destruct H1 as [H1 _]. now destruct H1.
  - intros [= -> H]. destruct H1 as [_ H1], H2 as [_ H2].
    destruct (IH s2 r1 r2 H1 H2 H) as [-> ->]. auto.
Qed.

Lemma no_space_uint d : no_space (DecimalString.NilEmpty.string_of_uint d).
Proof. induction d; cbn; (split; [discriminate|assumption]) || exact I. Qed.

Lemma no_space_str_int n : no_space (str_int n).
Proof.
  unfold str_int, DecimalString.NilZero.string_of_int,
    DecimalString.NilZero.string_of_uint.
  destruct (Z.to_int n) as [d|d]; [|split; [discriminate|]];
    (destruct d; [cbn; split; [discriminate|exact I]|apply no_space_uint..]).
Qed.

Lemma str_int_inj a b : str_int a = str_int b -> a = b.
Proof.
  unfold str_int. intros H. apply DecimalZ.to_int_inj.
  assert (Hnil : forall z, Z.to_int z <> Decimal.Pos Decimal.Nil /\
                           Z.to_int z <> Decimal.Neg Decimal.Nil).
  { intros [|p|p]; cbn; split; try discriminate; intros [= E];
      now apply DecimalPos.Unsigned.to_uint_nonnil in E. }
  apply (f_equal DecimalString.NilZero.int_of_string) in H.
  rewrite !DecimalString.NilZero.isi in H by apply Hnil.
  now inversion H.
Qed.

Lemma str_int_not_None n : str_int n <> "None".
Proof.
  unfold str_int, DecimalString.NilZero.string_of_int,
    DecimalString.NilZero.string_of_uint.
  destruct (Z.to_int n) as [d|d]; destruct d; cbn; discriminate.
Qed.

Lemma str_value_inj a b : str_value a = str_value b -> a = b.
Proof.
  destruct a as [|x], b as [|y]; cbn; intros H.
  - reflexivity.
  - symmetry in H. now apply str_int_not_None in H.
  - now apply str_int_not_None in H.
  - f_equal. now apply str_int_inj.
Qed.

(** X20: the text of an event tells which event it is.  Two events with the
    same [__str__] are the same event: the ten class names differ, the state
    of a [StateChange] is printed unambiguously ([None] or a decimal number),
    and in the text of a [PlayerMove] the number ends at the first space, so
    the player id and the direction can both be read back, whatever the
    direction string contains. *)
Theorem str_identifies_event e1 e2 : str e1 = str e2 -> e1 = e2.
Proof.
  destruct e1 as [| | | | |s1| | | |p1 d1], e2 as [| | | | |s2| | | |p2 d2];
    cbn; intros H; try discriminate; try reflexivity.
  - apply (append_inv_head "StateChange event => StateTo: ") in H.
    f_equal. now apply str_value_inj.
  - apply (append_inv_head "PlayerMove event => player_id ") in H.
    change (" move " +:+ d1) with (String Ascii.Space ("move " +:+ d1)) in H.
    change (" move " +:+ d2) with (String Ascii.Space ("move " +:+ d2)) in H.
    apply no_space_split in H as [Hp Hd]; [|apply no_space_str_int..].
    apply str_int_inj in Hp. apply (append_inv_head "move ") in Hd.
    now subst.
Qed.

Lemma str_identifies_event_witness :
  str (EventPlayerMove (-1) "up") = "PlayerMove event => player_id -1 move up" /\
  str (EventStateChange VNone) = "StateChange event => StateTo: None" /\
  EventStateChange (VInt (2 + 2)) = EventStateChange (VInt 4).
Proof.
  split; [reflexivity|]. split; [reflexivity|].
  apply (str_identifies_event (EventStateChange (VInt (2 + 2)))
           (EventStateChange (VInt 4))).
  reflexivity.
Defined.

(** ** The stack is last-in first-out *)

Lemma push_all_eq l sm :
  push_all l sm = Ok tt {| statestack := statestack sm ++ l |}.
Proof.
  revert sm. induction l as [|s l IH]; intros sm.
  - cbn. rewrite app_nil_r. now destruct sm.
  - cbn [push_all]. unfold bind. rewrite push_eq, IH. cbn [statestack].
    now rewrite <- app_assoc.
Qed.

Lemma pop_list_eq k : forall st,
  pop_list (length st + k) {| statestack := st |}
  = Ok (rev st ++ repeat VNone k) {| statestack := [] |}.
Proof.
  intros st. induction st as [|x st IH] using rev_ind.
  - cbn [length Nat.add rev app]. induction k as [|k IHk]; [reflexivity|].
    cbn [pop_list repeat]. unfold bind at 1. rewrite pop_eq. cbn [statestack removelast].
    unfold bind. rewrite IHk. reflexivity.
  - rewrite length_app, rev_app_distr. cbn [length rev app Nat.add].
    replace (length st + 1 + k)%nat with (S (length st + k)) by lia.
    cbn [pop_list]. unfold bind at 1. rewrite pop_eq. cbn [statestack].
    rewrite top_snoc, removelast_last. unfold bind. rewrite IH. reflexivity.
Qed.

(** X21: the state stack is last-in first-out, and popping past the bottom
    gives [None].  After the states of [l] are pushed on a stack [st],
    popping returns them most recent first, then the states of [st] from its
    top down, then [None] for every further pop; the stack ends empty. *)
Theorem stack_is_lifo st l k :
  (push_all l ;;; pop_list (length l + length st + k)) {| statestack := st |}
  = Ok (rev l ++ rev st ++ repeat VNone k) {| statestack := [] |}.
Proof.
  unfold bind. rewrite push_all_eq. cbn [statestack].
  replace (length l + length st + k)%nat with (length (st ++ l) + k)%nat
    by (rewrite length_app; lia).
  rewrite pop_list_eq, rev_app_distr, <- app_assoc. reflexivity.
Qed.

(** ** A colliding move ends the game *)



(** ** Creating a player *)

Lemma norm_index_neg n i :
  (- Z.of_nat n <= i < 0)%Z -> norm_index n i = Some (Z.to_nat (i + Z.of_nat n)).
Proof.
  intros H. unfold norm_index.
  assert (E1 : (i <? 0)%Z = true) by (apply Z.ltb_lt; lia).
  assert (E2 : (i + Z.of_nat n <? 0)%Z = false) by (apply Z.ltb_ge; lia).
  assert (E3 : (Z.of_nat n <=? i + Z.of_nat n)%Z = false) by (apply Z.leb_gt; lia).
  rewrite E1. cbv zeta iota. now rewrite E2, E3.
Qed.

Lemma norm_index_out n i :
  (i < - Z.of_nat n \/ Z.of_nat n <= i)%Z -> norm_index n i = None.
Proof.
  intros H. unfold norm_index.
  destruct (Z.ltb_spec i 0) as [Hi|Hi]; cbv zeta iota.
  - assert (E : (i + Z.of_nat n <? 0)%Z = true) by (apply Z.ltb_lt; lia).
    now rewrite E.
  - assert (E1 : (i <? 0)%Z = false) by (apply Z.ltb_ge; lia).
    assert (E2 : (Z.of_nat n <=? i)%Z = true) by (apply Z.leb_le; lia).
    now rewrite E1, E2.
Qed.

(** X23: [Player(player_id)] checks the id only through the lookup in the
    position table.  It raises [IndexError] exactly for the ids outside
    [-len .. len-1] of the table; a negative id inside that range is
    accepted, counts from the end of the table for the position, is kept
    as the player's id and gets the defense speed, which every id other
    than 1 gets. *)
Theorem player_init_bounds {S} c pid (s : S) :
  ((pid < - Z.of_nat (length (PLAYER_INIT_POSITION c)) \/
    Z.of_nat (length (PLAYER_INIT_POSITION c)) <= pid)%Z ->
   Player.init c pid s = Raise IndexError s) /\
  ((0 <= pid < Z.of_nat (length (PLAYER_INIT_POSITION c)))%Z ->
   exists v, PLAYER_INIT_POSITION c !! Z.to_nat pid = Some v /\
     Player.init c pid s =
       Ok {| player_id := pid; position := v;
             speed := if (pid =? 1)%Z then SPEED_ATTACK c else SPEED_DEFENSE c |} s) /\
  ((- Z.of_nat (length (PLAYER_INIT_POSITION c)) <= pid < 0)%Z ->
   exists v,
     PLAYER_INIT_POSITION c
       !! Z.to_nat (pid + Z.of_nat (length (PLAYER_INIT_POSITION c))) = Some v /\
     Player.init c pid s =
       Ok {| player_id := pid; position := v; speed := SPEED_DEFENSE c |} s).
Proof.
  split; [|split]; intros H; unfold Player.init, bind, getitem.
  - now rewrite norm_index_out.
  - rewrite norm_index_nonneg by exact H.
    destruct (lookup_lt_is_Some_2 (PLAYER_INIT_POSITION c) (Z.to_nat pid))
      as [v Hv]; [lia|].
    exists v. split; [exact Hv|]. now rewrite Hv.
  - rewrite norm_index_neg by exact H.
    destruct (lookup_lt_is_Some_2 (PLAYER_INIT_POSITION c)
                (Z.to_nat (pid + Z.of_nat (length (PLAYER_INIT_POSITION c)))))
      as [v Hv]; [lia|].
    exists v. split; [exact Hv|]. rewrite Hv.
    replace (pid =? 1)%Z with false by (symmetry; apply Z.eqb_neq; lia).
    reflexivity.
Qed.

Lemma player_init_bounds_witness :
  Player.init sample_const 2 tt = Raise IndexError tt /\
  Player.init sample_const (-1) tt =
    Ok {| player_id := -1; position := {| vx := 600; vy := 400 |}; speed := 70 |} tt.
Proof.
  split.
  - apply (proj1 (player_init_bounds sample_const 2 tt)). right. cbn. lia.
  - destruct (proj2 (proj2 (player_init_bounds sample_const (-1) tt)))
      as (v & Hv & E); [cbn; lia|].
    rewrite E. cbn in Hv. inversion Hv. reflexivity.
Defined.

(** ** What [distance] can raise *)

